(** * fsjobqueue: a filesystem-backed, dependency-aware job queue

    Shallow embedding of [internal/jobqueue/fsjobqueue/fsjobqueue.go].

    The queue keeps one JSON document per job in a directory (package
    [jsondb]) and two in-memory indices: a map from job types to buffered
    channels of job ids ([pending]) and a map from job ids to the ids of
    the jobs waiting for them ([dependants]).

    Modelling choices, all taken from the source:
    - a [uuid.UUID] is a [16]byte array: a list of bytes ([N]);
    - a [time.Time] is an instant counted in [N]; the zero value of the
      type, the one [IsZero] recognises, is [0];
    - a [json.RawMessage] is a string;
    - the directory is a finite map from ids to files; a file either holds
      a job document or bytes that do not decode;
    - a [chan uuid.UUID] of capacity 100 is the list of the ids it buffers,
      oldest first: a send appends at the tail and is refused (the
      goroutine blocks) when 100 ids are buffered, a receive takes the
      head;
    - what the Go runtime and the environment decide (the id [uuid.New]
      draws, the clock, whether a write fails, the order in which a map or
      a directory is iterated, the case [reflect.Select] picks) is an
      explicit argument of the operation. *)

From stdpp Require Import gmap strings list fin_maps.

Local Open Scope N_scope.

(** ** Data model *)

Abbreviation UUID := (list N).
Abbreviation Time := N.

(** [time.Time.IsZero]. *)
Definition IsZero (t : Time) : bool := N.eqb t 0.

(** The on-disk [job] struct. *)
Record job := Job {
  Id : UUID;
  Type_ : string;
  Args : string;
  Dependencies : list UUID;
  Result : string;
  QueuedAt : Time;
  StartedAt : Time;
  FinishedAt : Time
}.

Definition set_StartedAt (t : Time) (j : job) : job :=
  Job (Id j) (Type_ j) (Args j) (Dependencies j) (Result j)
      (QueuedAt j) t (FinishedAt j).

Definition set_FinishedAt (t : Time) (j : job) : job :=
  Job (Id j) (Type_ j) (Args j) (Dependencies j) (Result j)
      (QueuedAt j) (StartedAt j) t.

Definition set_Result (r : string) (j : job) : job :=
  Job (Id j) (Type_ j) (Args j) (Dependencies j) r
      (QueuedAt j) (StartedAt j) (FinishedAt j).

(** A file of the directory: a job document, or bytes [jsondb] cannot
    decode. *)
Inductive file :=
| Doc (j : job)
| Garbage.

(** The errors the package returns.  [ErrNotExist] and [ErrNotRunning] are
    the two exported by package [jobqueue]; the others are the
    [fmt.Errorf] values of the source, named after what failed. *)
Inductive error :=
| ErrNotExist
| ErrNotRunning
| ErrCanceled
| ErrList
| ErrRead
| ErrWrite
| ErrMarshal
| ErrUnmarshal.

(** The outcome of an operation: a value, an error, or a goroutine
    parked on a channel operation that cannot proceed in this state. *)
Inductive result (A : Type) :=
| Ret (a : A)
| Err (e : error)
| Blocked.
Arguments Ret {A} a.
Arguments Err {A} e.
Arguments Blocked {A}.

(** The [fsJobQueue] struct (the mutex is the atomicity of the operations
    below). *)
Record fsJobQueue := FsJobQueue {
  db : gmap UUID file;
  pending : gmap string (list UUID);
  dependants : gmap UUID (list UUID)
}.

Definition set_db (d : gmap UUID file) (q : fsJobQueue) : fsJobQueue :=
  FsJobQueue d (pending q) (dependants q).

Definition set_pending (p : gmap string (list UUID)) (q : fsJobQueue)
  : fsJobQueue :=
  FsJobQueue (db q) p (dependants q).

Definition set_dependants (d : gmap UUID (list UUID)) (q : fsJobQueue)
  : fsJobQueue :=
  FsJobQueue (db q) (pending q) d.

(** ** Iteration orders chosen by the runtime

    Go iterates a map in an order that is not specified and changes from
    one [range] to the next; a directory listing has no order either.
    [pick_order n seed l] draws [n] elements of [l] without replacement,
    the [k]-th draw at index [seed_k mod] (what is left). *)
Fixpoint pick_order {A} (n : nat) (seed : list nat) (l : list A) : list A :=
  match n with
  | O => []
  | S n' =>
      let k := (hd O seed `mod` length l)%nat in
      match l !! k with
      | Some x => x :: pick_order n' (tl seed) (delete k l)
      | None => []
      end
  end.

Definition range_order {A} (seed : list nat) (l : list A) : list A :=
  pick_order (length l) seed l.

(** ** uniqueUUIDList *)

(** The comparison closure handed to [sort.Slice]:
    [for b := 0; b < 16; b++ { if l[i][b] < l[j][b] { return true } };
     return false]. *)
Definition uuid_less (x y : UUID) : bool :=
  existsb (fun b => nth b x 0 <? nth b y 0) (seq 0 16).

(** [sort.Slice].  On the short slices this development evaluates it on,
    every release of package [sort] runs its [insertionSort]:
    [for i := a+1; i < b; i++ {
       for j := i; j > a && less(j, j-1); j-- { swap(j, j-1) } }].
    [insert_left less x rp] moves [x] leftwards into the already processed
    prefix, held in reverse ([rp]'s head is the element just left of
    [x]). *)
Fixpoint insert_left {A} (less : A -> A -> bool) (x : A) (rp : list A)
  : list A :=
  match rp with
  | [] => [x]
  | y :: rp' => if less x y then y :: insert_left less x rp' else x :: rp
  end.

Definition sort_Slice {A} (less : A -> A -> bool) (l : list A) : list A :=
  rev (fold_left (fun rp x => insert_left less x rp) l []).

(** [iter] seeds the order in which [for id := range s] visits the set. *)
Definition uniqueUUIDList (iter : list nat) (ids : list UUID) : list UUID :=
  let s : gset UUID := list_to_set ids in
  let l := range_order iter (elements s) in
  sort_Slice uuid_less l.

(** ** What a call takes from its environment *)
Record env := Env {
  uuid_New : UUID;          (* the id [uuid.New()] draws *)
  time_Now : Time;          (* the instant [time.Now()] reads *)
  write_fails : bool;       (* [db.Write] returns an error *)
  list_fails : bool;        (* [db.List] returns an error *)
  map_iter : list nat;      (* seed of the iteration order of a [range] *)
  ctx_err : bool;           (* [ctx.Err() != nil] when [Dequeue] starts *)
  ctx_done : bool;          (* [ctx.Done()] is closed when select looks *)
  select_pick : nat         (* the draw of [reflect.Select] *)
}.

(** ** The record store (package [jsondb]) *)

(** [db.List]: the ids of the directory, in directory order. *)
Definition db_List (order : list nat) (d : gmap UUID file) : list UUID :=
  range_order order (elements (dom d)).

(** [db.Write]: replaces the document atomically, or fails and leaves the
    directory as it was. *)
Definition db_Write (fails : bool) (key : UUID) (j : job)
    (d : gmap UUID file) : option (gmap UUID file) :=
  if fails then None else Some (<[key := Doc j]> d).

(** [readJob]: [ErrNotExist] when [db.Read] finds no file, its error when
    the file does not decode. *)
Definition readJob (q : fsJobQueue) (id : UUID) : error + job :=
  match db q !! id with
  | Some (Doc j) => inr j
  | Some Garbage => inl ErrRead
  | None => inl ErrNotExist
  end.

(** [countFinishedJobs]: the loop, entered with the count [n]. *)
Fixpoint countFinishedJobs_from (q : fsJobQueue) (n : nat) (ids : list UUID)
  : error + nat :=
  match ids with
  | [] => inr n
  | id :: ids' =>
      match readJob q id with
      | inl e => inl e
      | inr j =>
          countFinishedJobs_from q
            (if IsZero (FinishedAt j) then n else S n) ids'
      end
  end.

Definition countFinishedJobs (q : fsJobQueue) (ids : list UUID)
  : error + nat :=
  countFinishedJobs_from q 0 ids.

(** ** The pending registry *)

(** [make(chan uuid.UUID, 100)]. *)
Definition capacity : nat := 100.

(** The ids buffered for a type; a type without a channel buffers none. *)
Definition chan (t : string) (q : fsJobQueue) : list UUID :=
  default [] (pending q !! t).

(** [pendingChannel]: the channel of [jobType], created when missing. *)
Definition pendingChannel (jobType : string) (q : fsJobQueue)
  : list UUID * fsJobQueue :=
  match pending q !! jobType with
  | Some c => (c, q)
  | None => ([], set_pending (<[jobType := []]> (pending q)) q)
  end.

(** [pendingChannels]: the same for every type of the list. *)
Definition pendingChannels (jobTypes : list string) (q : fsJobQueue)
  : fsJobQueue :=
  fold_left (fun q' jt => snd (pendingChannel jt q')) jobTypes q.

(** [q.pendingChannel(jobType) <- id].  [false]: the buffer is full and
    the sender parks. *)
Definition send (jobType : string) (id : UUID) (q : fsJobQueue)
  : bool * fsJobQueue :=
  let '(c, q1) := pendingChannel jobType q in
  if decide (length c < capacity)%nat
  then (true, set_pending (<[jobType := c ++ [id]]> (pending q1)) q1)
  else (false, q1).

(** The cases of [reflect.Select] that can proceed: [None] is case 0
    ([ctx.Done()]), [Some jt] the channel of [jt].  The package never
    closes a pending channel, so such a case is ready exactly when an id
    is buffered. *)
Definition ready_cases (done : bool) (jobTypes : list string)
    (q : fsJobQueue) : list (option string) :=
  (if done then [None] else []) ++
  map Some (filter (fun jt => chan jt q ≠ []) jobTypes).

(** [selectUUIDChannel]: [reflect.Select] draws one of the ready cases, or
    waits when there is none. *)
Definition selectUUIDChannel (e : env) (jobTypes : list string)
    (q : fsJobQueue) : result UUID * fsJobQueue :=
  let ready := ready_cases (ctx_done e) jobTypes q in
  match ready !! (select_pick e `mod` length ready)%nat with
  | None => (Blocked, q)
  | Some None => (Err ErrCanceled, q)
  | Some (Some jt) =>
      match chan jt q with
      | [] => (Blocked, q)
      | id :: c => (Ret id, set_pending (<[jt := c]> (pending q)) q)
      end
  end.

(** ** The dependant index *)

(** [q.dependants[dep] = append(q.dependants[dep], id)]. *)
Definition add_dependant (id : UUID) (m : gmap UUID (list UUID))
    (dep : UUID) : gmap UUID (list UUID) :=
  <[dep := default [] (m !! dep) ++ [id]]> m.

Definition add_dependants (id : UUID) (deps : list UUID) (q : fsJobQueue)
  : fsJobQueue :=
  set_dependants (fold_left (add_dependant id) deps (dependants q)) q.

(** ** The operations *)

(** The loop of [New] over the listed ids. *)
Fixpoint New_loop (ids : list UUID) (q : fsJobQueue) : result fsJobQueue :=
  match ids with
  | [] => Ret q
  | id :: rest =>
      match readJob q id with
      | inl e => Err e
      | inr j =>
          if IsZero (StartedAt j) then New_loop rest q
          else
            match countFinishedJobs q (Dependencies j) with
            | inl e => Err e
            | inr n =>
                if decide (n = length (Dependencies j))
                then
                  match send (Type_ j) (Id j) q with
                  | (true, q1) => New_loop rest q1
                  | (false, _) => Blocked
                  end
                else New_loop rest (add_dependants (Id j) (Dependencies j) q)
            end
      end
  end.

(** [New(dir)].  The directory holds the files the queue wrote, each named
    by the id it stores, so [uuid.Parse] accepts every listed name. *)
Definition New (e : env) (dir : gmap UUID file) : result fsJobQueue :=
  if list_fails e then Err ErrList
  else New_loop (db_List (map_iter e) dir) (FsJobQueue dir ∅ ∅).

(** [Enqueue].  [args] is what [json.Marshal] makes of the caller's value,
    [None] when it fails. *)
Definition Enqueue (e : env) (jobType : string) (args : option string)
    (dependencies : list UUID) (q : fsJobQueue) : result UUID * fsJobQueue :=
  let deps := uniqueUUIDList (map_iter e) dependencies in
  match args with
  | None => (Err ErrMarshal, q)
  | Some a =>
      let j := Job (uuid_New e) jobType a deps "" (time_Now e) 0 0 in
      match countFinishedJobs q deps with
      | inl err => (Err err, q)
      | inr finished =>
          match db_Write (write_fails e) (Id j) j (db q) with
          | None => (Err ErrWrite, q)
          | Some d =>
              let q1 := set_db d q in
              if decide (finished = length deps)
              then
                match send jobType (Id j) q1 with
                | (true, q2) => (Ret (Id j), q2)
                | (false, q2) => (Blocked, q2)
                end
              else (Ret (Id j), add_dependants (Id j) deps q1)
          end
      end
  end.

(** The second half of [Dequeue], from the re-acquired lock on: read the
    job, unmarshal its arguments into the caller's sink ([accepts] tells
    whether they fit), stamp and persist. *)
Definition Dequeue_finalize (e : env) (accepts : string -> bool) (id : UUID)
    (q : fsJobQueue) : result UUID * fsJobQueue :=
  match readJob q id with
  | inl err => (Err err, q)
  | inr j =>
      if accepts (Args j) then
        let j' := set_StartedAt (time_Now e) j in
        match db_Write (write_fails e) id j' (db q) with
        | None => (Err ErrWrite, q)
        | Some d => (Ret (Id j'), set_db d q)
        end
      else (Err ErrUnmarshal, q)
  end.

(** The first half of [Dequeue]: the context check, the channels of the
    accepted types, and the wait. *)
Definition Dequeue_wait (e : env) (jobTypes : list string) (q : fsJobQueue)
  : result UUID * fsJobQueue :=
  if ctx_err e then (Err ErrCanceled, q)
  else selectUUIDChannel e jobTypes (pendingChannels jobTypes q).

Definition Dequeue (e : env) (jobTypes : list string)
    (accepts : string -> bool) (q : fsJobQueue) : result UUID * fsJobQueue :=
  match Dequeue_wait e jobTypes q with
  | (Ret id, q1) => Dequeue_finalize e accepts id q1
  | (Err err, q1) => (Err err, q1)
  | (Blocked, q1) => (Blocked, q1)
  end.

(** The loop of [FinishJob] over [q.dependants[id]]. *)
Fixpoint notify (depids : list UUID) (q : fsJobQueue)
  : result unit * fsJobQueue :=
  match depids with
  | [] => (Ret tt, q)
  | depid :: rest =>
      match readJob q depid with
      | inl err => (Err err, q)
      | inr dep =>
          match countFinishedJobs q (Dependencies dep) with
          | inl err => (Err err, q)
          | inr n =>
              if decide (n = length (Dependencies dep))
              then
                match send (Type_ dep) (Id dep) q with
                | (true, q1) => notify rest q1
                | (false, q1) => (Blocked, q1)
                end
              else notify rest q
          end
      end
  end.

(** [FinishJob].  [res] is what [json.Marshal] makes of the result. *)
Definition FinishJob (e : env) (id : UUID) (res : option string)
    (q : fsJobQueue) : result unit * fsJobQueue :=
  match readJob q id with
  | inl err => (Err err, q)
  | inr j =>
      if IsZero (StartedAt j) || negb (IsZero (FinishedAt j))
      then (Err ErrNotRunning, q)
      else
        match res with
        | None => (Err ErrMarshal, q)
        | Some r =>
            let j' := set_Result r (set_FinishedAt (time_Now e) j) in
            match db_Write (write_fails e) id j' (db q) with
            | None => (Err ErrWrite, q)
            | Some d =>
                let q1 := set_db d q in
                match notify (default [] (dependants q1 !! id)) q1 with
                | (Ret _, q2) =>
                    (Ret tt, set_dependants (delete id (dependants q2)) q2)
                | (r', q2) => (r', q2)
                end
            end
        end
  end.

(** [JobStatus]: the three timestamps; the result is unmarshalled into
    the caller's sink only when the job has finished. *)
Definition JobStatus (accepts : string -> bool) (id : UUID) (q : fsJobQueue)
  : error + (Time * Time * Time) :=
  match readJob q id with
  | inl err => inl err
  | inr j =>
      if negb (IsZero (FinishedAt j)) && negb (accepts (Result j))
      then inl ErrUnmarshal
      else inr (QueuedAt j, StartedAt j, FinishedAt j)
  end.

(** ** Sample data

    Ids, environments and stores on which the statements below are
    evaluated. *)

Definition uuid_of (k : N) : UUID :=
  [0; 0; 0; 0; 0; 0; 0; 0; 0; 0; 0; 0; 0; 0; 0; k].

(** A call during which nothing fails: it draws [id], reads the clock at
    [now], and its context stays live. *)
Definition calm (id : UUID) (now : Time) : env :=
  Env id now false false [] false false 0.

(** The same call with a failing [db.Write]. *)
Definition failing_write (id : UUID) (now : Time) : env :=
  Env id now true false [] false false 0.

(** A sink every payload unmarshals into. *)
Definition any_payload (s : string) : bool := true.

Definition empty_queue : fsJobQueue := FsJobQueue ∅ ∅ ∅.

(** The same call when the runtime iterates its map from seed [iter]. *)
Definition calm_iter (iter : list nat) (id : UUID) (now : Time) : env :=
  Env id now false false iter false false 0.

(** Two ids neither of which is below the other for [uuid_less]'s reader:
    each has a byte smaller than the other's at some index. *)
Definition uuid_hi : UUID := [1; 0; 0; 0; 0; 0; 0; 0; 0; 0; 0; 0; 0; 0; 0; 0].
Definition uuid_lo : UUID := [0; 1; 0; 0; 0; 0; 0; 0; 0; 0; 0; 0; 0; 0; 0; 0].

(** The dependency list persisted for [id], when its document decodes. *)
Definition persisted_dependencies (id : UUID) (q : fsJobQueue)
  : option (list UUID) :=
  match db q !! id with
  | Some (Doc j) => Some (Dependencies j)
  | _ => None
  end.

(** ** Sequences of calls

    A client's calls, one after the other, each on the queue the previous
    one left.  [CallNew] drops the queue object and constructs a new one
    over the same directory. *)
Inductive call :=
| CallNew (e : env)
| CallEnqueue (e : env) (jobType : string) (args : option string)
    (dependencies : list UUID)
| CallDequeue (e : env) (jobTypes : list string) (accepts : string -> bool)
| CallFinishJob (e : env) (id : UUID) (res : option string).

Definition exec (c : call) (q : fsJobQueue)
  : result (option UUID) * fsJobQueue :=
  match c with
  | CallNew e =>
      match New e (db q) with
      | Ret q' => (Ret None, q')
      | Err err => (Err err, FsJobQueue (db q) ∅ ∅)
      | Blocked => (Blocked, FsJobQueue (db q) ∅ ∅)
      end
  | CallEnqueue e jobType args dependencies =>
      match Enqueue e jobType args dependencies q with
      | (Ret id, q') => (Ret (Some id), q')
      | (Err err, q') => (Err err, q')
      | (Blocked, q') => (Blocked, q')
      end
  | CallDequeue e jobTypes accepts =>
      match Dequeue e jobTypes accepts q with
      | (Ret id, q') => (Ret (Some id), q')
      | (Err err, q') => (Err err, q')
      | (Blocked, q') => (Blocked, q')
      end
  | CallFinishJob e id res =>
      match FinishJob e id res q with
      | (Ret _, q') => (Ret None, q')
      | (Err err, q') => (Err err, q')
      | (Blocked, q') => (Blocked, q')
      end
  end.

Fixpoint exec_all (cs : list call) (q : fsJobQueue)
  : list (result (option UUID)) * fsJobQueue :=
  match cs with
  | [] => ([], q)
  | c :: cs' =>
      let '(r, q1) := exec c q in
      let '(rs, q2) := exec_all cs' q1 in
      (r :: rs, q2)
  end.

(** Scenario S4 up to its first dequeue: enqueue A, enqueue B depending
    on A, restart, dequeue A's type. *)
Definition recovery_script : list call :=
  [ CallEnqueue (calm (uuid_of 1) 10) "build" (Some "{}"%string) [];
    CallEnqueue (calm (uuid_of 2) 11) "ship" (Some "{}"%string) [uuid_of 1];
    CallNew (calm [] 12);
    CallDequeue (calm [] 13) ["build"%string] any_payload ].

(** Enqueue A, dequeue it, restart, dequeue again. *)
Definition redelivery_script : list call :=
  [ CallEnqueue (calm (uuid_of 1) 10) "build" (Some "{}"%string) [];
    CallDequeue (calm [] 11) ["build"%string] any_payload;
    CallNew (calm [] 12);
    CallDequeue (calm [] 13) ["build"%string] any_payload ].

(** [n] jobs of type "build", each dequeued as soon as it is enqueued. *)
Definition started_jobs (n : nat) : list call :=
  flat_map (fun k : nat =>
    [ CallEnqueue (calm (uuid_of (N.of_nat k)) 10) "build"
        (Some "{}"%string) [];
      CallDequeue (calm [] 11) ["build"%string] any_payload ])
    (seq 1 n).

(** A running job (id 0) with one dependant of type "ship" (id 101), and
    100 further "ship" jobs enqueued behind it. *)
Definition backlog_script : list call :=
  [ CallEnqueue (calm (uuid_of 0) 10) "build" (Some "{}"%string) [];
    CallDequeue (calm [] 11) ["build"%string] any_payload;
    CallEnqueue (calm (uuid_of 101) 12) "ship" (Some "{}"%string)
      [uuid_of 0] ] ++
  map (fun k : nat =>
    CallEnqueue (calm (uuid_of (N.of_nat k)) 13) "ship"
      (Some "{}"%string) [])
    (seq 1 100).

Definition all_returned (rs : list (result (option UUID))) : bool :=
  forallb (fun r => match r with Ret _ => true | _ => false end) rs.

(** ** One consumer of a type among producers

    The steps that touch the channel of a type [t] when a single consumer
    dequeues [t] alone.  What runs under the mutex is one step: a whole
    [Enqueue] or [FinishJob], the first half of the consumer's [Dequeue]
    with its receive, and its second half.  A producer parked on a full
    channel is woken by the consumer's receive: its send then goes
    through ([Ev_send]) and, in [FinishJob], the rest of the loop follows
    ([Ev_resume]). *)
Inductive event :=
| Ev_Enqueue (e : env) (jobType : string) (args : option string)
    (dependencies : list UUID)
| Ev_FinishJob (e : env) (id : UUID) (res : option string)
| Ev_send (jobType : string) (id : UUID)
| Ev_resume (id : UUID) (depids : list UUID)
| Ev_wait (e : env)
| Ev_finalize (e : env) (accepts : string -> bool).

(** What is seen of a run: the ids published to [t]'s channel, the ids
    the consumer received from it, the ids its [Dequeue] calls returned,
    how many of them failed after the receive, and the id it holds
    between the two halves of a call. *)
Record observer := Observer {
  published : list UUID;
  received : list UUID;
  returned : list UUID;
  failed : nat;
  held : option UUID
}.

Definition no_observation : observer := Observer [] [] [] 0 None.

(** The ids that reached the tail of [t]'s channel between [q] and [q']. *)
Definition appended (t : string) (q q' : fsJobQueue) : list UUID :=
  drop (length (chan t q)) (chan t q').

Definition observe_published (t : string) (q q' : fsJobQueue) (o : observer)
  : observer :=
  Observer (published o ++ appended t q q') (received o) (returned o)
           (failed o) (held o).

Definition step (t : string) (ev : event) (s : fsJobQueue * observer)
  : fsJobQueue * observer :=
  let '(q, o) := s in
  match ev with
  | Ev_Enqueue e jobType args dependencies =>
      let q' := snd (Enqueue e jobType args dependencies q) in
      (q', observe_published t q q' o)
  | Ev_FinishJob e id res =>
      let q' := snd (FinishJob e id res q) in
      (q', observe_published t q q' o)
  | Ev_send jobType id =>
      let q' := snd (send jobType id q) in
      (q', observe_published t q q' o)
  | Ev_resume id depids =>
      let q' :=
        match notify depids q with
        | (Ret _, q1) => set_dependants (delete id (dependants q1)) q1
        | (_, q1) => q1
        end in
      (q', observe_published t q q' o)
  | Ev_wait e =>
      match held o with
      | Some _ => (q, o)
      | None =>
          match Dequeue_wait e [t] q with
          | (Ret id, q') =>
              (q', Observer (published o) (received o ++ [id]) (returned o)
                            (failed o) (Some id))
          | (_, q') => (q', o)
          end
      end
  | Ev_finalize e accepts =>
      match held o with
      | None => (q, o)
      | Some id =>
          match Dequeue_finalize e accepts id q with
          | (Ret id', q') =>
              (q', Observer (published o) (received o) (returned o ++ [id'])
                            (failed o) None)
          | (_, q') =>
              (q', Observer (published o) (received o) (returned o)
                            (S (failed o)) None)
          end
      end
  end.

Definition run (t : string) (evs : list event) (s : fsJobQueue * observer)
  : fsJobQueue * observer :=
  fold_left (fun s' ev => step t ev s') evs s.

(** Two jobs of type "build" enqueued, then dequeued by the consumer. *)
Definition fifo_sample : list event :=
  [ Ev_Enqueue (calm (uuid_of 1) 10) "build" (Some "{}"%string) [];
    Ev_Enqueue (calm (uuid_of 2) 11) "build" (Some "{}"%string) [];
    Ev_wait (calm [] 12); Ev_finalize (calm [] 12) any_payload;
    Ev_wait (calm [] 13); Ev_finalize (calm [] 13) any_payload ].

(** Every document of the store is filed under the id it carries, as
    [Enqueue] files it. *)
Definition filed_by_id (q : fsJobQueue) : Prop :=
  forall k j, db q !! k = Some (Doc j) -> Id j = k.

(** What a run maintains: the ids received, followed by the ids still
    buffered, are the ids the channel held at the start followed by the
    ids published since; every document is filed under its id; and the
    ids returned are the ids received (the one in hand apart), less those
    of the calls that failed after the receive. *)
Definition fifo_invariant (t : string) (q0 q : fsJobQueue) (o : observer)
  : Prop :=
  received o ++ chan t q = chan t q0 ++ published o /\
  filed_by_id q /\
  exists done_, received o = done_ ++ option_list (held o) /\
    returned o `sublist_of` done_ /\
    (failed o = O -> returned o = done_).

(** ** Vocabulary of the further properties *)

(** The job [id] has a decodable record whose [finished_at] is set. *)
Definition finished (q : fsJobQueue) (id : UUID) : bool :=
  match readJob q id with
  | inr j => negb (IsZero (FinishedAt j))
  | inl _ => false
  end.

(** The ids among [depids], in their order, of the jobs of type [t] all of
    whose dependencies are finished in [q]. *)
Definition released (q : fsJobQueue) (t : string) (depids : list UUID)
  : list UUID :=
  flat_map (fun depid =>
    match readJob q depid with
    | inr dep =>
        if forallb (finished q) (Dependencies dep)
           && bool_decide (Type_ dep = t)
        then [Id dep] else []
    | inl _ => []
    end) depids.

(** No channel buffers more than its capacity. *)
Definition bounded (q : fsJobQueue) : Prop :=
  forall t, (length (chan t q) <= capacity)%nat.

(** Every buffered id has a record, of the type of the channel. *)
Definition typed_channels (q : fsJobQueue) : Prop :=
  forall t id, id ∈ chan t q ->
    exists j, db q !! id = Some (Doc j) /\ Type_ j = t.

(** The call [e] when [reflect.Select] draws [pick]. *)
Definition with_pick (pick : nat) (e : env) : env :=
  Env (uuid_New e) (time_Now e) (write_fails e) (list_fails e) (map_iter e)
      (ctx_err e) (ctx_done e) pick.

(** Each [Enqueue] of the sequence draws an id no record is filed under
    when it is called, as [uuid.New] does but for a collision. *)
Fixpoint fresh_ids (cs : list call) (q : fsJobQueue) : Prop :=
  match cs with
  | [] => True
  | c :: cs' =>
      match c with
      | CallEnqueue e _ _ _ => db q !! uuid_New e = None
      | _ => True
      end /\ fresh_ids cs' (snd (exec c q))
  end.

(** Every buffered id has a record all of whose dependencies are
    finished. *)
Definition ready_channels (q : fsJobQueue) : Prop :=
  forall t id, id ∈ chan t q ->
    exists j, db q !! id = Some (Doc j) /\
      forall d, d ∈ Dependencies j -> finished q d = true.

(** From [q] to [q'] every record keeps its dependency list and, once
    set, its [finished_at]. *)
Definition keeps_records (q q' : fsJobQueue) : Prop :=
  forall id j, db q !! id = Some (Doc j) ->
    exists j', db q' !! id = Some (Doc j') /\
      Dependencies j' = Dependencies j /\
      (IsZero (FinishedAt j) = false -> IsZero (FinishedAt j') = false).

(** * The test distribution

    [internal/distro/test/distro.go]: the distribution the tests of the
    other packages run against. *)

Module rpmmd.
(** The fields of [rpmmd.RepoConfig] the test distribution sets. *)
Record RepoConfig := {
  Id : string;
  Name : string;
  BaseURL : string
}.
End rpmmd.

Module TestDistro.

Definition Name : string := "test-distro".
Definition ModulePlatformID : string := "platform:test".
Definition Runner : string := "org.osbuild.test".

Definition Repositories (arch : string) : list rpmmd.RepoConfig :=
  [ {| rpmmd.Id := "test-id";
       rpmmd.Name := "Test Name";
       rpmmd.BaseURL := "http://example.com/test/os/" +:+ arch |} ].

Definition ListOutputFormats : list string := ["test_format"%string].

(** [FilenameFromType]: the file name, the MIME type and the error. *)
Definition FilenameFromType (outputFormat : string)
  : string * string * option string :=
  if String.eqb outputFormat "test_format"
  then ("test.img"%string, "application/x-test"%string, None)
  else (""%string, ""%string,
        Some ("invalid output format: " +:+ outputFormat)).

(** [Pipeline]: the pipeline ([nil] is [None]) and the error.  The
    blueprint, the repositories, the checksums and the size are not
    looked at; [zero] is the value of [osbuild.Pipeline{}]. *)
Definition Pipeline {P B R C : Type} (zero : P) (b : B) (additionalRepos : R)
    (checksums : C) (outputArch outputFormat : string) (size : N)
  : option P * option string :=
  if String.eqb outputFormat "test_output" && String.eqb outputArch "test_arch"
  then (Some zero, None)
  else (None,
        Some ("invalid output format or arch: " +:+ outputFormat
              +:+ " @ " +:+ outputArch)).

End TestDistro.

(** * Properties *)

(** ** Iteration orders and [uniqueUUIDList] *)

Section Orders.
Context {A : Type}.
Implicit Types (l : list A) (seed : list nat).

Lemma pick_order_perm n seed l : length l = n -> pick_order n seed l ≡ₚ l.
Proof.
  revert seed l. induction n as [|n IH]; intros seed l Hlen; simpl.
  - by destruct l.
  - destruct (lookup_lt_is_Some_2 l (hd O seed `mod` length l)%nat)
      as [x Hx].
    { apply Nat.mod_upper_bound. lia. }
    rewrite Hx. rewrite IH.
    + symmetry. by apply delete_Permutation.
    + rewrite length_delete by eauto. lia.
Qed.

Lemma range_order_perm seed l : range_order seed l ≡ₚ l.
Proof. by apply pick_order_perm. Qed.

Lemma range_order_singleton seed (x : A) : range_order seed [x] = [x].
Proof.
  unfold range_order. cbn [length pick_order].
  rewrite Nat.mod_1_r. reflexivity.
Qed.

Lemma insert_left_perm (less : A -> A -> bool) x rp :
  insert_left less x rp ≡ₚ x :: rp.
Proof.
  induction rp as [|y rp IH]; simpl; [done|].
  destruct (less x y); [|done].
  rewrite IH. apply Permutation_swap.
Qed.

Lemma sort_Slice_perm (less : A -> A -> bool) l : sort_Slice less l ≡ₚ l.
Proof.
  unfold sort_Slice. rewrite <- Permutation_rev.
  assert (H : forall acc,
    fold_left (fun rp x => insert_left less x rp) l acc ≡ₚ l ++ acc).
  { induction l as [|x l IH]; intros acc; simpl; [done|].
    rewrite IH, insert_left_perm. by rewrite Permutation_middle. }
  rewrite H. by rewrite app_nil_r.
Qed.
End Orders.

(** The list [uniqueUUIDList] returns holds the ids of its argument, each
    once, whatever the iteration order. *)
Lemma uniqueUUIDList_perm iter (ids : list UUID) :
  uniqueUUIDList iter ids ≡ₚ elements (list_to_set ids : gset UUID).
Proof.
  unfold uniqueUUIDList. by rewrite sort_Slice_perm, range_order_perm.
Qed.

Lemma uniqueUUIDList_elem_of iter (ids : list UUID) (x : UUID) :
  x ∈ uniqueUUIDList iter ids <-> x ∈ ids.
Proof.
  rewrite uniqueUUIDList_perm, elem_of_elements.
  apply elem_of_list_to_set.
Qed.

Lemma uniqueUUIDList_NoDup iter (ids : list UUID) :
  NoDup (uniqueUUIDList iter ids).
Proof. rewrite uniqueUUIDList_perm. apply NoDup_elements. Qed.

Lemma uniqueUUIDList_nil iter : uniqueUUIDList iter [] = [].
Proof.
  apply Permutation_nil_r. rewrite uniqueUUIDList_perm. simpl.
  by rewrite elements_empty.
Qed.

Lemma uniqueUUIDList_repeat iter (a : UUID) :
  uniqueUUIDList iter [a; a; a] = [a].
Proof.
  unfold uniqueUUIDList.
  assert (Hs : (list_to_set [a; a; a] : gset UUID) = {[a]}).
  { apply leibniz_equiv. intros x.
    rewrite elem_of_list_to_set, elem_of_singleton, !elem_of_cons, elem_of_nil.
    tauto. }
  rewrite Hs, elements_singleton, range_order_singleton. reflexivity.
Qed.

(** ** Reading the store *)

Lemma readJob_Some q id j : readJob q id = inr j <-> db q !! id = Some (Doc j).
Proof.
  unfold readJob. destruct (db q !! id) as [[j'|]|]; naive_solver.
Qed.

Lemma readJob_error q id err :
  readJob q id = inl err -> err = ErrNotExist \/ err = ErrRead.
Proof.
  unfold readJob. destruct (db q !! id) as [[j'|]|]; intros H;
    [discriminate H | right | left]; congruence.
Qed.

Lemma countFinishedJobs_from_error q n ids err :
  countFinishedJobs_from q n ids = inl err ->
  err = ErrNotExist \/ err = ErrRead.
Proof.
  revert n. induction ids as [|id ids IH]; intros n; simpl; [done|].
  destruct (readJob q id) as [e'|j] eqn:Hr.
  - intros; simplify_eq. eauto using readJob_error.
  - apply IH.
Qed.

(** A dependency without a file makes the count fail with [ErrNotExist],
    unless an undecodable file is met first. *)
Lemma countFinishedJobs_from_missing q n ids d :
  d ∈ ids -> db q !! d = None ->
  (forall d', d' ∈ ids -> db q !! d' ≠ Some Garbage) ->
  countFinishedJobs_from q n ids = inl ErrNotExist.
Proof.
  revert n. induction ids as [|id ids IH]; intros n Hin Hd Hg; simpl.
  - by apply elem_of_nil in Hin.
  - unfold readJob at 1.
    destruct (db q !! id) as [[j|]|] eqn:Hid.
    + apply IH.
      * apply elem_of_cons in Hin as [->|Hin]; [congruence|done].
      * done.
      * intros d' Hd'. apply Hg. by apply elem_of_cons; right.
    + exfalso. apply (Hg id); [apply elem_of_cons; by left|done].
    + done.
Qed.

(** ** Enqueue: unknown dependencies and failed writes *)

(** A dependency without a file makes the count fail. *)
Lemma countFinishedJobs_from_fails q n ids d :
  d ∈ ids -> db q !! d = None ->
  exists err, countFinishedJobs_from q n ids = inl err.
Proof.
  revert n. induction ids as [|id ids IH]; intros n Hin Hd; simpl.
  - by apply elem_of_nil in Hin.
  - destruct (readJob q id) as [err|j] eqn:Hr; [eauto|].
    apply IH; [|done].
    apply elem_of_cons in Hin as [->|Hin]; [|done].
    apply readJob_Some in Hr. congruence.
Qed.

(** C6. An [Enqueue] that names a dependency without a persisted record
    fails and leaves the queue, its store included, as it was: no record
    is created.  The error is [ErrNotExist] (the spec's
    UnknownDependency) when the arguments marshal and no dependency file
    is undecodable, the two failures the source reports first.  And when
    the write of the new record fails, [Enqueue] returns an error and the
    queue, pending channels and dependant index included, is exactly as
    before. *)
Theorem Enqueue_unknown_dependency_and_failed_write
    e jobType dependencies q :
  (forall d,
     d ∈ dependencies -> db q !! d = None ->
     (forall args, exists err,
        Enqueue e jobType args dependencies q = (Err err, q)) /\
     (forall a,
        (forall d', d' ∈ dependencies -> db q !! d' ≠ Some Garbage) ->
        Enqueue e jobType (Some a) dependencies q = (Err ErrNotExist, q))) /\
  (write_fails e = true ->
   forall args, exists err,
     Enqueue e jobType args dependencies q = (Err err, q)).
Proof.
  split.
  - intros d Hin Hd. apply (uniqueUUIDList_elem_of (map_iter e)) in Hin.
    split.
    + intros [a|]; unfold Enqueue, countFinishedJobs; [|eauto].
      destruct (countFinishedJobs_from_fails q 0 _ d Hin Hd) as [err ->].
      eauto.
    + intros a Hg. unfold Enqueue, countFinishedJobs.
      rewrite (countFinishedJobs_from_missing q 0 _ d); [done..|].
      intros d' Hd'. apply Hg. by apply uniqueUUIDList_elem_of in Hd'.
  - intros Hw [a|]; unfold Enqueue; [|eauto].
    destruct (countFinishedJobs q _) as [err|n]; [eauto|].
    unfold db_Write. rewrite Hw. eauto.
Qed.

Lemma Enqueue_unknown_dependency_and_failed_write_witness :
  Enqueue (failing_write (uuid_of 1) 5) "build" (Some "{}"%string)
    [uuid_of 0] empty_queue = (Err ErrNotExist, empty_queue) /\
  exists err,
    Enqueue (failing_write (uuid_of 1) 5) "build" (Some "{}"%string)
      [] empty_queue = (Err err, empty_queue).
Proof.
  split.
  - apply (proj1 (Enqueue_unknown_dependency_and_failed_write
                    (failing_write (uuid_of 1) 5) "build" [uuid_of 0]
                    empty_queue) (uuid_of 0)).
    + apply list_elem_of_singleton. reflexivity.
    + reflexivity.
    + intros d' _. simpl. rewrite lookup_empty. discriminate.
  - apply (proj2 (Enqueue_unknown_dependency_and_failed_write
                    (failing_write (uuid_of 1) 5) "build" []
                    empty_queue)).
    reflexivity.
Defined.

(** ** FinishJob: rejections *)

(** The loop over the dependants never reports [ErrNotRunning]. *)
Lemma notify_not_ErrNotRunning depids q q' :
  notify depids q ≠ (Err ErrNotRunning, q').
Proof.
  revert q. induction depids as [|d rest IH]; intros q; simpl; [done|].
  destruct (readJob q d) as [err|dep] eqn:Hr.
  { apply readJob_error in Hr as [->| ->]; congruence. }
  destruct (countFinishedJobs q (Dependencies dep)) as [err|n] eqn:Hc.
  { apply countFinishedJobs_from_error in Hc as [->| ->]; congruence. }
  case_decide; [|apply IH].
  destruct (send _ _ q) as [[] q1]; [apply IH|congruence].
Qed.

(** C7. [FinishJob] on an id without a persisted record fails with
    [ErrNotExist] (the spec's UnknownJob); it fails with [ErrNotRunning]
    exactly when the record exists and its [started_at] is unset or its
    [finished_at] is set; and in both cases the queue (store, pending
    channels, dependant index) is returned unchanged. *)
Theorem FinishJob_rejections e id res q :
  (db q !! id = None -> FinishJob e id res q = (Err ErrNotExist, q)) /\
  (forall j, db q !! id = Some (Doc j) ->
     IsZero (StartedAt j) = true \/ IsZero (FinishedAt j) = false ->
     FinishJob e id res q = (Err ErrNotRunning, q)) /\
  (forall q', FinishJob e id res q = (Err ErrNotRunning, q') ->
     q' = q /\
     exists j, db q !! id = Some (Doc j) /\
       (IsZero (StartedAt j) = true \/ IsZero (FinishedAt j) = false)).
Proof.
  unfold FinishJob, readJob. split; [|split].
  - by intros ->.
  - intros j -> [H|H]; rewrite H; [done|]. by rewrite orb_true_r.
  - intros q'. destruct (db q !! id) as [[j|]|]; [|done..].
    destruct (IsZero (StartedAt j) || negb (IsZero (FinishedAt j)))
      eqn:Hrun.
    + intros; simplify_eq. split; [done|]. exists j. split; [done|].
      apply orb_true_iff in Hrun as [H|H]; [by left|right].
      by apply negb_true_iff in H.
    + destruct res as [r|]; [|done].
      destruct (db_Write _ _ _ _) as [d|]; [|done].
      destruct (notify _ _) as [[[]|err|] q2] eqn:Hn; try done.
      intros; simplify_eq. by apply notify_not_ErrNotRunning in Hn.
Qed.

Lemma FinishJob_rejections_witness :
  FinishJob (calm [] 9) (uuid_of 3) (Some "{}"%string) empty_queue
    = (Err ErrNotExist, empty_queue) /\
  (let j := Job (uuid_of 3) "build" "{}" [] "" 4 0 0 in
   let q := FsJobQueue {[uuid_of 3 := Doc j]} ∅ ∅ in
   FinishJob (calm [] 9) (uuid_of 3) (Some "{}"%string) q
     = (Err ErrNotRunning, q) /\
   exists j', db q !! uuid_of 3 = Some (Doc j') /\
     (IsZero (StartedAt j') = true \/ IsZero (FinishedAt j') = false)).
Proof.
  split.
  - apply (proj1 (FinishJob_rejections (calm [] 9) (uuid_of 3)
                    (Some "{}"%string) empty_queue)).
    reflexivity.
  - intros j q.
    assert (H : FinishJob (calm [] 9) (uuid_of 3) (Some "{}"%string) q
                = (Err ErrNotRunning, q)).
    { apply (proj1 (proj2 (FinishJob_rejections (calm [] 9) (uuid_of 3)
                             (Some "{}"%string) q)) j).
      - apply lookup_singleton_eq.
      - left. reflexivity. }
    split; [exact H|].
    apply (proj2 (proj2 (FinishJob_rejections (calm [] 9) (uuid_of 3)
                           (Some "{}"%string) q)) q H).
Defined.

(** ** Channels: what each step does to the buffered ids *)

Lemma chan_insert t t' c q :
  chan t' (set_pending (<[t := c]> (pending q)) q)
  = if decide (t = t') then c else chan t' q.
Proof. unfold chan. simpl. rewrite lookup_insert. by case_decide. Qed.

Lemma pendingChannel_inv t q c q' :
  pendingChannel t q = (c, q') ->
  c = chan t q /\ db q' = db q /\ dependants q' = dependants q /\
  pending q' !! t = Some c /\ forall t', chan t' q' = chan t' q.
Proof.
  unfold pendingChannel. destruct (pending q !! t) as [c0|] eqn:Hp;
    intros [= <- <-].
  - unfold chan. rewrite Hp. done.
  - repeat split; try done.
    + unfold chan. by rewrite Hp.
    + simpl. by rewrite lookup_insert_eq.
    + intros t'. rewrite chan_insert. case_decide as Ht; [|done].
      subst t'. unfold chan. by rewrite Hp.
Qed.

Lemma pendingChannels_inv ts q :
  db (pendingChannels ts q) = db q /\
  dependants (pendingChannels ts q) = dependants q /\
  forall t, chan t (pendingChannels ts q) = chan t q.
Proof.
  unfold pendingChannels. revert q.
  induction ts as [|t ts IH]; intros q; simpl; [done|].
  destruct (pendingChannel t q) as [c q1] eqn:Hc. simpl.
  apply pendingChannel_inv in Hc as (_ & Hd & Hdep & _ & Hch).
  destruct (IH q1) as (-> & -> & Hch'). repeat split; try done.
  intros t'. by rewrite Hch'.
Qed.

(** A send reaches the tail of its channel, and only when fewer than
    [capacity] ids are buffered; nothing else changes. *)
Lemma send_inv t id q b q' :
  send t id q = (b, q') ->
  db q' = db q /\ dependants q' = dependants q /\
  (b = true <-> (length (chan t q) < capacity)%nat) /\
  forall t', chan t' q' =
    chan t' q ++ (if b then if decide (t = t') then [id] else [] else []).
Proof.
  unfold send. destruct (pendingChannel t q) as [c q1] eqn:Hc.
  apply pendingChannel_inv in Hc as (-> & Hd & Hdep & _ & Hch).
  case_decide as Hlen; intros [= <- <-]; simpl.
  - repeat split; try done. intros t'. rewrite chan_insert, Hch.
    case_decide as Ht; [by subst t'|by rewrite app_nil_r].
  - repeat split; try done. intros t'. by rewrite app_nil_r.
Qed.

Lemma send_prefix t id q b q' t' :
  send t id q = (b, q') -> chan t' q `prefix_of` chan t' q'.
Proof.
  intros Hs. apply send_inv in Hs as (_ & _ & _ & Hch).
  rewrite Hch. by apply prefix_app_r.
Qed.

(** What [reflect.Select] can do: hand over the head of the channel of an
    accepted type, report the cancelled context, or wait because the
    context is live and no accepted type has an id buffered. *)
Lemma selectUUIDChannel_inv e ts q r q' :
  selectUUIDChannel e ts q = (r, q') ->
  db q' = db q /\ dependants q' = dependants q /\
  match r with
  | Ret id =>
      exists t, t ∈ ts /\ chan t q = id :: chan t q' /\
        forall t', t' ≠ t -> chan t' q' = chan t' q
  | Err err => err = ErrCanceled /\ ctx_done e = true /\ q' = q
  | Blocked => ctx_done e = false /\ q' = q /\ forall t, t ∈ ts -> chan t q = []
  end.
Proof.
  unfold selectUUIDChannel.
  set (ready := ready_cases (ctx_done e) ts q).
  destruct (ready !! (select_pick e `mod` length ready)%nat)
    as [[jt|]|] eqn:Hpick.
  - assert (Hjt : jt ∈ ts /\ chan jt q ≠ []).
    { apply list_elem_of_lookup_2 in Hpick. unfold ready, ready_cases in Hpick.
      apply elem_of_app in Hpick as [Hpick|Hpick].
      - destruct (ctx_done e); [|by apply elem_of_nil in Hpick].
        apply list_elem_of_singleton in Hpick. discriminate.
      - apply list_elem_of_fmap in Hpick as (jt' & [= <-] & Hin).
        by apply list_elem_of_filter in Hin as [? ?]. }
    destruct Hjt as [Hin Hne].
    destruct (chan jt q) as [|id c] eqn:Hc; [done|].
    intros [= <- <-]. simpl. repeat split; try done.
    exists jt. split; [done|]. rewrite chan_insert.
    split; [by rewrite decide_True|].
    intros t' Hne'. rewrite chan_insert. by rewrite decide_False.
  - intros [= <- <-]. repeat split; try done.
    apply list_elem_of_lookup_2 in Hpick. unfold ready, ready_cases in Hpick.
    destruct (ctx_done e); [done|]. simpl in Hpick.
    apply list_elem_of_fmap in Hpick as (jt' & [=] & _).
  - intros [= <- <-]. repeat split; try done.
    + destruct (ctx_done e) eqn:Hd; [|done]. exfalso.
      apply lookup_ge_None in Hpick. unfold ready, ready_cases in Hpick.
      simpl in Hpick.
      assert (H := Nat.mod_upper_bound (select_pick e)
        (S (length (map Some (filter (fun jt => chan jt q ≠ []) ts))))).
      lia.
    + intros t Hin. destruct (chan t q) as [|id c] eqn:Hc; [done|]. exfalso.
      apply lookup_ge_None in Hpick.
      assert (Hr : Some t ∈ ready).
      { unfold ready, ready_cases. apply elem_of_app. right.
        apply list_elem_of_fmap. exists t. split; [done|].
        apply list_elem_of_filter. split; [|done]. by rewrite Hc. }
      apply list_elem_of_lookup_1 in Hr as [i Hi].
      apply lookup_lt_Some in Hi.
      assert (H := Nat.mod_upper_bound (select_pick e) (length ready)).
      lia.
Qed.

Lemma Dequeue_wait_inv e ts q r q' :
  Dequeue_wait e ts q = (r, q') ->
  db q' = db q /\ dependants q' = dependants q /\
  match r with
  | Ret id =>
      exists t, t ∈ ts /\ chan t q = id :: chan t q' /\
        forall t', t' ≠ t -> chan t' q' = chan t' q
  | Err err => err = ErrCanceled /\ forall t, chan t q' = chan t q
  | Blocked =>
      ctx_done e = false /\
      (forall t, chan t q' = chan t q) /\ forall t, t ∈ ts -> chan t q = []
  end.
Proof.
  unfold Dequeue_wait. destruct (ctx_err e).
  { intros [= <- <-]. done. }
  intros Hs. apply selectUUIDChannel_inv in Hs as (Hd & Hdep & Hr).
  destruct (pendingChannels_inv ts q) as (Hd' & Hdep' & Hch).
  rewrite Hd, Hdep. repeat split; try done.
  destruct r as [id|err|].
  - destruct Hr as (t & Hin & Hhd & Hoth). exists t. split; [done|].
    rewrite <- Hch. split; [done|]. intros t' Hne. by rewrite Hoth, Hch.
  - destruct Hr as (-> & _ & ->). done.
  - destruct Hr as (Hdone & -> & Hempty). repeat split; try done.
    intros t Hin. rewrite <- Hch. by apply Hempty.
Qed.

(** With a live context and a single accepted type, the wait returns the
    head of that type's channel. *)
Lemma Dequeue_wait_head e t q id c :
  ctx_err e = false -> ctx_done e = false -> chan t q = id :: c ->
  exists q', Dequeue_wait e [t] q = (Ret id, q') /\
    db q' = db q /\ dependants q' = dependants q /\ chan t q' = c /\
    forall t', t' ≠ t -> chan t' q' = chan t' q.
Proof.
  intros Hce Hcd Hc.
  destruct (Dequeue_wait e [t] q) as [r q'] eqn:Hw. exists q'.
  pose proof (Dequeue_wait_inv _ _ _ _ _ Hw) as (Hd & Hdep & Hr).
  destruct r as [id'|err|].
  - destruct Hr as (t0 & Hin & Hhd & Hoth).
    apply list_elem_of_singleton in Hin. subst t0.
    rewrite Hc in Hhd. injection Hhd as <- <-. done.
  - exfalso. unfold Dequeue_wait in Hw. rewrite Hce in Hw.
    apply selectUUIDChannel_inv in Hw as (_ & _ & _ & Hdone & _). congruence.
  - exfalso. destruct Hr as (_ & _ & Hempty).
    rewrite (Hempty t) in Hc; [done|]. by apply list_elem_of_singleton.
Qed.

(** ** Finalising a dequeue *)

Lemma Dequeue_finalize_inv e accepts id q r q' :
  Dequeue_finalize e accepts id q = (r, q') ->
  pending q' = pending q /\ dependants q' = dependants q /\
  match r with
  | Ret id' =>
      exists j, db q !! id = Some (Doc j) /\ id' = Id j /\
        db q' = <[id := Doc (set_StartedAt (time_Now e) j)]> (db q)
  | _ => q' = q
  end.
Proof.
  unfold Dequeue_finalize, readJob.
  destruct (db q !! id) as [[j|]|] eqn:Hj; try (intros [= <- <-]; done).
  destruct (accepts (Args j)); [|intros [= <- <-]; done].
  unfold db_Write. destruct (write_fails e); intros [= <- <-]; [done|].
  simpl. repeat split; try done. by exists j.
Qed.

(** ** Duplicate dependencies *)

(** C9. Scenario S2, for all ids, types, payloads and clock readings:
    enqueue A, enqueue B with dependencies [A;A;A], dequeue A, finish A.
    The record persisted for B lists A once, B is in no channel while A
    runs, and the one [FinishJob] of A publishes B to the channel of B's
    type.  The calls are free of storage faults and cancellation, and the
    clock never reads the zero instant. *)
Theorem duplicate_dependencies_coalesce
    eA eB eD eF tA tB aA aB r accepts :
  uuid_New eA ≠ uuid_New eB ->
  write_fails eA = false -> write_fails eB = false ->
  write_fails eD = false -> write_fails eF = false ->
  ctx_err eD = false -> ctx_done eD = false ->
  IsZero (time_Now eD) = false -> IsZero (time_Now eF) = false ->
  accepts aA = true ->
  exists q1 q2 q3 q4 jB,
    Enqueue eA tA (Some aA) [] empty_queue = (Ret (uuid_New eA), q1) /\
    Enqueue eB tB (Some aB) [uuid_New eA; uuid_New eA; uuid_New eA] q1
      = (Ret (uuid_New eB), q2) /\
    db q2 !! uuid_New eB = Some (Doc jB) /\
    Dependencies jB = [uuid_New eA] /\
    Dequeue eD [tA] accepts q2 = (Ret (uuid_New eA), q3) /\
    chan tB q3 = [] /\
    FinishJob eF (uuid_New eA) (Some r) q3 = (Ret tt, q4) /\
    chan tB q4 = [uuid_New eB].
Proof.
  intros HAB WA WB WD WF CE CD ND NF Hacc.
  set (A := uuid_New eA) in *. set (B := uuid_New eB) in *.
  set (jA := Job A tA aA [] "" (time_Now eA) 0 0).
  set (jB := Job B tB aB [A] "" (time_Now eB) 0 0).
  (* Enqueue A *)
  destruct (send tA A (set_db (<[A := Doc jA]> ∅) empty_queue))
    as [b1 q1] eqn:Hs1.
  pose proof (send_inv _ _ _ _ _ Hs1) as (Hd1 & Hdep1 & Hb1 & Hch1).
  assert (b1 = true) as ->.
  { apply Hb1. unfold chan. cbn. rewrite lookup_empty. cbn.
    unfold capacity. lia. }
  assert (HE1 : Enqueue eA tA (Some aA) [] empty_queue = (Ret A, q1)).
  { unfold Enqueue. rewrite uniqueUUIDList_nil. cbn.
    unfold db_Write. rewrite WA. cbn. fold A. fold jA.
    change (set_db _ _) with (set_db (<[A := Doc jA]> ∅) empty_queue).
    by rewrite Hs1. }
  (* Enqueue B *)
  set (q2 := add_dependants B [A] (set_db (<[B := Doc jB]> (db q1)) q1)).
  assert (HE2 : Enqueue eB tB (Some aB) [A; A; A] q1 = (Ret B, q2)).
  { assert (Hcnt : countFinishedJobs q1 [A] = inr 0%nat).
    { unfold countFinishedJobs. cbn. unfold readJob. rewrite Hd1. cbn.
      by rewrite lookup_insert_eq. }
    unfold Enqueue. rewrite uniqueUUIDList_repeat, Hcnt.
    unfold db_Write. rewrite WB. cbn.
    rewrite decide_False by lia. reflexivity. }
  assert (Hch2 : forall t, chan t q2 = if decide (tA = t) then [A] else []).
  { intros t. change (chan t q2) with (chan t q1). rewrite Hch1.
    unfold chan. cbn. rewrite lookup_empty. by case_decide. }
  (* Dequeue A *)
  destruct (Dequeue_wait_head eD tA q2 A [] CE CD) as (q3' & Hw & Hd3' & Hdep3' & Hc3' & Ho3').
  { rewrite Hch2. by rewrite decide_True. }
  set (jA' := set_StartedAt (time_Now eD) jA).
  set (q3 := set_db (<[A := Doc jA']> (db q3')) q3').
  assert (HdbA : db q3' !! A = Some (Doc jA)).
  { rewrite Hd3'. cbn. rewrite lookup_insert_ne by done.
    rewrite Hd1. cbn. apply lookup_insert_eq. }
  assert (HD : Dequeue eD [tA] accepts q2 = (Ret A, q3)).
  { unfold Dequeue. rewrite Hw. unfold Dequeue_finalize, readJob.
    rewrite HdbA. cbn. rewrite Hacc. unfold db_Write. rewrite WD. done. }
  assert (Hch3 : forall t, chan t q3 = []).
  { intros t. change (chan t q3) with (chan t q3').
    destruct (decide (t = tA)) as [->|Hne]; [done|].
    rewrite Ho3' by done. rewrite Hch2. by rewrite decide_False. }
  (* Finish A *)
  set (jA'' := set_Result r (set_FinishedAt (time_Now eF) jA')).
  set (q3w := set_db (<[A := Doc jA'']> (db q3)) q3).
  destruct (send tB B q3w) as [b4 q4'] eqn:Hs4.
  pose proof (send_inv _ _ _ _ _ Hs4) as (Hd4 & Hdep4 & Hb4 & Hch4).
  assert (b4 = true) as ->.
  { apply Hb4. change (chan tB q3w) with (chan tB q3). rewrite Hch3.
    unfold capacity. cbn. lia. }
  exists q1, q2, q3, (set_dependants (delete A (dependants q4')) q4'), jB.
  split; [done|]. split; [done|].
  split. { cbn. apply lookup_insert_eq. }
  split; [done|]. split; [done|]. split; [done|].
  split.
  - assert (HrA : readJob q3 A = inr jA').
    { unfold readJob. cbn. by rewrite lookup_insert_eq. }
    assert (Hrun : IsZero (StartedAt jA') || negb (IsZero (FinishedAt jA'))
                   = false).
    { cbn. by rewrite ND. }
    assert (Hdeps : dependants q3w !! A = Some [B]).
    { cbn. rewrite Hdep3'. cbn. rewrite Hdep1. cbn.
      unfold add_dependant. rewrite lookup_insert_eq. by rewrite lookup_empty. }
    assert (HB : readJob q3w B = inr jB).
    { unfold readJob. cbn. rewrite !lookup_insert_ne by done.
      rewrite Hd3'. cbn. by rewrite lookup_insert_eq. }
    assert (Hcnt : countFinishedJobs q3w [A] = inr 1%nat).
    { unfold countFinishedJobs. cbn. unfold readJob. cbn.
      rewrite lookup_insert_eq. cbn. by rewrite NF. }
    unfold FinishJob. rewrite HrA, Hrun. unfold db_Write. rewrite WF.
    cbv zeta. fold jA''. fold q3w. rewrite Hdeps.
    cbn [default from_option id notify]. rewrite HB.
    change (Dependencies jB) with [A]. rewrite Hcnt.
    rewrite decide_True by done.
    change (Type_ jB) with tB. change (Id jB) with B.
    rewrite Hs4. reflexivity.
  - change (chan tB (set_dependants _ q4')) with (chan tB q4').
    rewrite Hch4. change (chan tB q3w) with (chan tB q3). rewrite Hch3.
    by rewrite decide_True.
Qed.

Lemma duplicate_dependencies_coalesce_witness :
  exists q1 q2 q3 q4 jB,
    Enqueue (calm (uuid_of 1) 10) "build" (Some "{}"%string) [] empty_queue
      = (Ret (uuid_of 1), q1) /\
    Enqueue (calm (uuid_of 2) 11) "ship" (Some "{}"%string)
      [uuid_of 1; uuid_of 1; uuid_of 1] q1 = (Ret (uuid_of 2), q2) /\
    db q2 !! uuid_of 2 = Some (Doc jB) /\
    Dependencies jB = [uuid_of 1] /\
    Dequeue (calm [] 12) ["build"%string] any_payload q2
      = (Ret (uuid_of 1), q3) /\
    chan "ship" q3 = [] /\
    FinishJob (calm [] 13) (uuid_of 1) (Some "ok"%string) q3 = (Ret tt, q4) /\
    chan "ship" q4 = [uuid_of 2].
Proof.
  apply (duplicate_dependencies_coalesce
           (calm (uuid_of 1) 10) (calm (uuid_of 2) 11)
           (calm [] 12) (calm [] 13)
           "build" "ship" "{}" "{}" "ok" any_payload);
    try reflexivity.
  simpl. unfold uuid_of. intros H. discriminate H.
Defined.

(** ** Failed writes *)

(** C5, as stated, fails: a [Dequeue] whose write of the stamped record
    fails returns the write error after the id has left its channel.  One
    job is enqueued; the failing [Dequeue] finds it at the head of
    "build" and leaves the channel empty. *)
Lemma Dequeue_failed_write_loses_the_id :
  let q := snd (Enqueue (calm (uuid_of 1) 10) "build" (Some "{}"%string) []
                  empty_queue) in
  let out := Dequeue (failing_write [] 11) ["build"%string] any_payload q in
  fst out = Err ErrWrite /\
  chan "build" q = [uuid_of 1] /\
  chan "build" (snd out) = [] /\
  pending (snd out) ≠ pending q.
Proof.
  cbv zeta. split; [|split; [|split]]; try (vm_compute; reflexivity).
  intros H. apply (f_equal (fun p => p !! "build"%string)) in H.
  vm_compute in H. discriminate H.
Qed.

(** C5, amended. When [db.Write] fails, [Enqueue] and [FinishJob] return
    with the queue (store, pending channels, dependant index) exactly as
    it was.  [Dequeue] leaves the store and the dependant index as they
    were, and when it returns the write error the id it received is gone
    from the head of its channel. *)
Theorem failed_write_effects e q :
  write_fails e = true ->
  (forall jobType args dependencies,
     snd (Enqueue e jobType args dependencies q) = q) /\
  (forall id res, snd (FinishJob e id res q) = q) /\
  (forall jobTypes accepts r q',
     Dequeue e jobTypes accepts q = (r, q') ->
     db q' = db q /\ dependants q' = dependants q /\
     (r = Err ErrWrite ->
      exists t id, t ∈ jobTypes /\ chan t q = id :: chan t q')).
Proof.
  intros Hw. split; [|split].
  - intros jobType args dependencies. unfold Enqueue.
    destruct args as [a|]; [|done].
    destruct (countFinishedJobs q _) as [err|n]; [done|].
    unfold db_Write. by rewrite Hw.
  - intros id res. unfold FinishJob.
    destruct (readJob q id) as [err|j]; [done|].
    destruct (_ || _); [done|]. destruct res as [r|]; [|done].
    unfold db_Write. by rewrite Hw.
  - intros jobTypes accepts r q'. unfold Dequeue.
    destruct (Dequeue_wait e jobTypes q) as [rw q1] eqn:Hwait.
    apply Dequeue_wait_inv in Hwait as (Hd & Hdep & Hr).
    destruct rw as [id|err|].
    + intros Hfin.
      assert (q' = q1) as ->.
      { unfold Dequeue_finalize in Hfin.
        destruct (readJob q1 id) as [err|j]; [by injection Hfin|].
        destruct (accepts (Args j)); [|by injection Hfin].
        unfold db_Write in Hfin. rewrite Hw in Hfin. by injection Hfin. }
      repeat split; try done. intros _.
      destruct Hr as (t & Hin & Hhd & _). by exists t, id.
    + intros [= <- <-]. repeat split; try done.
      destruct Hr as [-> _]. done.
    + intros [= <- <-]. done.
Qed.

Lemma failed_write_effects_witness :
  let e := failing_write (uuid_of 2) 11 in
  let q := snd (Enqueue (calm (uuid_of 1) 10) "build" (Some "{}"%string) []
                  empty_queue) in
  let out := Dequeue e ["build"%string] any_payload q in
  snd (Enqueue e "ship" (Some "{}"%string) [uuid_of 1] q) = q /\
  snd (FinishJob e (uuid_of 1) (Some "ok"%string) q) = q /\
  db (snd out) = db q /\ dependants (snd out) = dependants q /\
  exists t id, t ∈ ["build"%string] /\ chan t q = id :: chan t (snd out).
Proof.
  intros e q out.
  destruct (failed_write_effects e q eq_refl) as (HE & HF & HD).
  destruct (HD ["build"%string] any_payload (fst out) (snd out)
              (surjective_pairing out)) as (Hd & Hdep & Hlost).
  split; [apply HE|]. split; [apply HF|].
  split; [exact Hd|]. split; [exact Hdep|].
  apply Hlost. vm_compute. reflexivity.
Defined.

(** ** FinishJob and full channels *)


Lemma notify_inv depids q r q' :
  notify depids q = (r, q') ->
  db q' = db q /\ dependants q' = dependants q /\
  (forall t, chan t q `prefix_of` chan t q') /\
  (r = Blocked -> exists t, (capacity <= length (chan t q'))%nat).
Proof.
  revert q. induction depids as [|d rest IH]; intros q; simpl.
  { intros [= <- <-]. done. }
  destruct (readJob q d) as [err|dep]; [intros [= <- <-]; done|].
  destruct (countFinishedJobs q (Dependencies dep)) as [err|n];
    [intros [= <- <-]; done|].
  case_decide; [|apply IH].
  destruct (send (Type_ dep) (Id dep) q) as [b q1] eqn:Hs.
  pose proof (send_inv _ _ _ _ _ Hs) as (Hd & Hdep & Hb & Hch).
  destruct b.
  - intros Hn. apply IH in Hn as (-> & -> & Hpre & Hblk).
    repeat split; try done.
    intros t. etrans; [|apply Hpre]. by eapply send_prefix.
  - intros [= <- <-]. repeat split; try done.
    + intros t. by eapply send_prefix.
    + intros _. exists (Type_ dep). rewrite Hch, app_nil_r.
      destruct (decide (length (chan (Type_ dep) q) < capacity)%nat)
        as [Hlt|Hge]; [|lia].
      apply Hb in Hlt. discriminate Hlt.
Qed.




(** ** Recovery *)

(** Whatever the directory holds, the ids [New] publishes belong to
    documents whose [started_at] is set: the guard of its loop passes
    over the documents for which [StartedAt.IsZero()] holds. *)
Lemma New_loop_publishes_started ids q q' :
  New_loop ids q = Ret q' ->
  (forall t id, id ∈ chan t q ->
     exists k j, db q !! k = Some (Doc j) /\ Id j = id /\
       IsZero (StartedAt j) = false) ->
  db q' = db q /\
  forall t id, id ∈ chan t q' ->
    exists k j, db q !! k = Some (Doc j) /\ Id j = id /\
      IsZero (StartedAt j) = false.
Proof.
  revert q. induction ids as [|k ids IH]; intros q; simpl.
  { intros [= <-]. done. }
  destruct (readJob q k) as [err|j] eqn:Hr; [done|].
  apply readJob_Some in Hr.
  destruct (IsZero (StartedAt j)) eqn:Hz; [apply IH|].
  destruct (countFinishedJobs q (Dependencies j)) as [err|n]; [done|].
  case_decide.
  - destruct (send (Type_ j) (Id j) q) as [[] q1] eqn:Hs; [|done].
    apply send_inv in Hs as (Hd & _ & _ & Hch).
    intros HN Hinv. apply IH in HN.
    + rewrite Hd in HN. done.
    + intros t id. rewrite Hch, Hd. rewrite elem_of_app.
      intros [Hin|Hin]; [by apply (Hinv t)|].
      case_decide; [|by apply elem_of_nil in Hin].
      apply list_elem_of_singleton in Hin. subst id. by exists k, j.
  - intros HN Hinv. apply IH in HN; done.
Qed.

Lemma New_publishes_started e dir q :
  New e dir = Ret q ->
  forall t id, id ∈ chan t q ->
    exists k j, dir !! k = Some (Doc j) /\ Id j = id /\
      IsZero (StartedAt j) = false.
Proof.
  unfold New. destruct (list_fails e); [done|]. intros HN.
  apply New_loop_publishes_started in HN as [_ HN]; [done|].
  intros t id Hin. unfold chan in Hin. simpl in Hin.
  rewrite lookup_empty in Hin. by apply elem_of_nil in Hin.
Qed.

(** C1 (the code departs from the claim). Scenario S4: A and B are
    enqueued, B depending on A, and nothing is dequeued; a new queue is
    constructed over the directory.  [New] returns a queue with no
    channel and no dependant, and the [Dequeue] that accepts A's type
    waits: the job that was never started has been passed over. *)
Theorem New_passes_over_never_started_jobs :
  fst (exec_all recovery_script empty_queue)
    = [Ret (Some (uuid_of 1)); Ret (Some (uuid_of 2)); Ret None; Blocked] /\
  (let q := snd (exec_all (take 3 recovery_script) empty_queue) in
   pending q = ∅ /\ dependants q = ∅ /\
   exists j, db q !! uuid_of 1 = Some (Doc j) /\
     StartedAt j = 0 /\ FinishedAt j = 0 /\ Dependencies j = []).
Proof.
  cbv zeta. repeat split; try (vm_compute; reflexivity).
  eexists. repeat split; vm_compute; reflexivity.
Qed.

(** C2 (the code departs from the claim). A is enqueued and dequeued; a
    new queue is constructed over the directory; the next [Dequeue]
    returns A again.  No [started_at] was cleared: the second delivery
    finds it set. *)
Theorem Dequeue_returns_job_again_after_restart :
  fst (exec_all redelivery_script empty_queue)
    = [Ret (Some (uuid_of 1)); Ret (Some (uuid_of 1)); Ret None;
       Ret (Some (uuid_of 1))] /\
  (let q := snd (exec_all (take 3 redelivery_script) empty_queue) in
   exists j, db q !! uuid_of 1 = Some (Doc j) /\ StartedAt j = 11).
Proof.
  cbv zeta. split; [vm_compute; reflexivity|].
  eexists. split; vm_compute; reflexivity.
Qed.

(** C10 (the code departs from the claim). 101 jobs of one type are
    enqueued and dequeued, every call returning; [New] over the directory
    they leave parks on its 101st send, with no goroutine to receive.
    Over the directory 100 such jobs leave, it returns. *)
Theorem New_parks_on_101_jobs_of_a_type :
  all_returned (fst (exec_all (started_jobs 101) empty_queue)) = true /\
  New (calm [] 12) (db (snd (exec_all (started_jobs 101) empty_queue)))
    = Blocked /\
  (exists q, New (calm [] 12)
               (db (snd (exec_all (started_jobs 100) empty_queue))) = Ret q).
Proof.
  split; [vm_compute; reflexivity|]. split; [vm_compute; reflexivity|].
  eexists. vm_compute. reflexivity.
Qed.

(** ** The order of the dependency list *)

(** C3 (the code departs from the claim). [uuid_less] answers true both
    ways on [uuid_lo] and [uuid_hi], so what [sort.Slice] leaves depends
    on the order in which the map was iterated: the same dependency list
    is persisted in two different orders by two calls of [Enqueue]. *)
Theorem Enqueue_dependency_order_varies :
  uuid_less uuid_lo uuid_hi = true /\ uuid_less uuid_hi uuid_lo = true /\
  uniqueUUIDList [0%nat] [uuid_lo; uuid_hi]
    ≠ uniqueUUIDList [1%nat] [uuid_lo; uuid_hi] /\
  (let q := snd (exec_all
       [ CallEnqueue (calm uuid_lo 10) "build" (Some "{}"%string) [];
         CallEnqueue (calm uuid_hi 11) "build" (Some "{}"%string) [] ]
       empty_queue) in
   let enqueue iter :=
     Enqueue (calm_iter iter (uuid_of 3) 12) "ship" (Some "{}"%string)
       [uuid_lo; uuid_hi] q in
   fst (enqueue [0%nat]) = Ret (uuid_of 3) /\
   fst (enqueue [1%nat]) = Ret (uuid_of 3) /\
   persisted_dependencies (uuid_of 3) (snd (enqueue [0%nat]))
     = Some [uuid_lo; uuid_hi] /\
   persisted_dependencies (uuid_of 3) (snd (enqueue [1%nat]))
     = Some [uuid_hi; uuid_lo]).
Proof.
  cbv zeta.
  split; [vm_compute; reflexivity|]. split; [vm_compute; reflexivity|].
  split; [vm_compute; intros H; discriminate H|].
  repeat split; vm_compute; reflexivity.
Qed.

(** ** FIFO within a type *)

Lemma filed_by_id_insert q q' k j :
  filed_by_id q -> Id j = k -> db q' = <[k := Doc j]> (db q) ->
  filed_by_id q'.
Proof.
  intros Hf Hid Hdb k' j'. rewrite Hdb, lookup_insert.
  case_decide; [|apply Hf]. intros [= <-]. congruence.
Qed.

Lemma filed_by_id_db q q' : filed_by_id q -> db q' = db q -> filed_by_id q'.
Proof. intros Hf Hdb k j. rewrite Hdb. apply Hf. Qed.

(** Producers only append to a channel, and file what they write under
    its id. *)
Lemma Enqueue_inv e jobType args dependencies q r q' :
  Enqueue e jobType args dependencies q = (r, q') ->
  (forall t, chan t q `prefix_of` chan t q') /\
  (filed_by_id q -> filed_by_id q').
Proof.
  unfold Enqueue. destruct args as [a|]; [|intros [= <- <-]; done].
  destruct (countFinishedJobs q _) as [err|n]; [intros [= <- <-]; done|].
  unfold db_Write. destruct (write_fails e); [intros [= <- <-]; done|].
  cbn [Id].
  set (j := Job _ _ _ _ _ _ _ _).
  set (q1 := set_db (<[uuid_New e := Doc j]> (db q)) q).
  assert (Hf1 : filed_by_id q -> filed_by_id q1).
  { intros Hf. by apply (filed_by_id_insert q q1 (uuid_New e) j). }
  case_decide.
  - destruct (send jobType (uuid_New e) q1) as [b q2] eqn:Hs.
    pose proof (send_inv _ _ _ _ _ Hs) as (Hd & _ & _ & _).
    assert (forall t, chan t q `prefix_of` chan t q2).
    { intros t. change (chan t q) with (chan t q1). by eapply send_prefix. }
    destruct b; intros [= <- <-]; (split; [done|]);
      intros Hf; apply (filed_by_id_db q1); auto.
  - intros [= <- <-]. split; [done|]. intros Hf.
    apply (filed_by_id_db q1); [by apply Hf1|done].
Qed.

Lemma FinishJob_inv e id res q r q' :
  FinishJob e id res q = (r, q') ->
  (forall t, chan t q `prefix_of` chan t q') /\
  (filed_by_id q -> filed_by_id q').
Proof.
  unfold FinishJob.
  destruct (readJob q id) as [err|j] eqn:Hr; [intros [= <- <-]; done|].
  apply readJob_Some in Hr.
  destruct (_ || _); [intros [= <- <-]; done|].
  destruct res as [s|]; [|intros [= <- <-]; done].
  unfold db_Write. destruct (write_fails e); [intros [= <- <-]; done|].
  set (j' := set_Result s (set_FinishedAt (time_Now e) j)).
  set (q1 := set_db (<[id := Doc j']> (db q)) q).
  assert (Hf1 : filed_by_id q -> filed_by_id q1).
  { intros Hf. apply (filed_by_id_insert q q1 id j'); [done| |done].
    by apply Hf in Hr. }
  destruct (notify _ q1) as [rn q2] eqn:Hn.
  apply notify_inv in Hn as (Hd & _ & Hpre & _).
  assert (Hf2 : filed_by_id q -> filed_by_id q2).
  { intros Hf. apply (filed_by_id_db q1); [by apply Hf1|done]. }
  destruct rn as [[]|err|]; intros [= <- <-]; split; done.
Qed.

Lemma fifo_invariant_publish t q0 q q' o :
  fifo_invariant t q0 q o ->
  chan t q `prefix_of` chan t q' ->
  (filed_by_id q -> filed_by_id q') ->
  fifo_invariant t q0 q' (observe_published t q q' o).
Proof.
  intros (Hfifo & Hf & Hret) [l Hl] Hf'. split; [|split; [by apply Hf'|done]].
  unfold observe_published, appended. simpl.
  rewrite Hl, drop_app_length, !app_assoc. by rewrite Hfifo.
Qed.

Lemma step_fifo_invariant t q0 ev q o q' o' :
  fifo_invariant t q0 q o ->
  step t ev (q, o) = (q', o') ->
  fifo_invariant t q0 q' o'.
Proof.
  intros Hinv. destruct ev as [e jt args deps|e id res|jt id|id depids|e|e acc];
    simpl.
  - intros [= <- <-].
    destruct (Enqueue e jt args deps q) as [r q1] eqn:HE.
    apply Enqueue_inv in HE as [Hpre Hf]. by apply fifo_invariant_publish.
  - intros [= <- <-].
    destruct (FinishJob e id res q) as [r q1] eqn:HF.
    apply FinishJob_inv in HF as [Hpre Hf]. by apply fifo_invariant_publish.
  - intros [= <- <-].
    destruct (send jt id q) as [b q1] eqn:Hs.
    pose proof (send_inv _ _ _ _ _ Hs) as (Hd & _ & _ & _).
    apply fifo_invariant_publish; [done|by eapply send_prefix|].
    intros Hf. by apply (filed_by_id_db q).
  - intros [= <- <-].
    destruct (notify depids q) as [r q1] eqn:Hn.
    apply notify_inv in Hn as (Hd & _ & Hpre & _).
    apply fifo_invariant_publish; [done| |].
    + destruct r as [[]|err|]; apply Hpre.
    + intros Hf. destruct r as [[]|err|]; by apply (filed_by_id_db q).
  - destruct Hinv as (Hfifo & Hf & done_ & Hrec & Hsub & Heq).
    destruct (held o) as [id|] eqn:Hheld.
    { intros [= <- <-]. split; [done|]. split; [done|].
      exists done_. by rewrite Hheld. }
    destruct (Dequeue_wait e [t] q) as [r q1] eqn:Hw.
    apply Dequeue_wait_inv in Hw as (Hd & _ & Hr).
    assert (Hf1 : filed_by_id q1) by by apply (filed_by_id_db q).
    simpl in Hrec. rewrite app_nil_r in Hrec.
    destruct r as [id|err|]; intros [= <- <-].
    + destruct Hr as (t0 & Hin & Hhd & _).
      apply list_elem_of_singleton in Hin. subst t0.
      split; [|split; [done|]].
      * simpl. rewrite <- Hfifo, Hhd, <- app_assoc. done.
      * exists done_. simpl. by rewrite Hrec.
    + destruct Hr as [_ Hch]. split; [by rewrite Hch|]. split; [done|].
      exists done_. rewrite Hheld. simpl. by rewrite app_nil_r.
    + destruct Hr as (_ & Hch & _). split; [by rewrite Hch|]. split; [done|].
      exists done_. rewrite Hheld. simpl. by rewrite app_nil_r.
  - destruct Hinv as (Hfifo & Hf & done_ & Hrec & Hsub & Heq).
    destruct (held o) as [id|] eqn:Hheld.
    2:{ intros [= <- <-]. split; [done|]. split; [done|].
        exists done_. by rewrite Hheld. }
    destruct (Dequeue_finalize e acc id q) as [r q1] eqn:Hfin.
    apply Dequeue_finalize_inv in Hfin as (Hp & _ & Hr).
    assert (Hch : chan t q1 = chan t q) by (unfold chan; by rewrite Hp).
    simpl in Hrec.
    destruct r as [id'|err|]; intros [= <- <-]; simpl.
    + destruct Hr as (j & Hj & -> & Hdb).
      pose proof (Hf _ _ Hj) as Hid.
      split; [by rewrite Hch|]. split.
      { by apply (filed_by_id_insert q q1 id (set_StartedAt (time_Now e) j)). }
      exists (done_ ++ [id]). rewrite app_nil_r. split; [done|].
      rewrite Hid. split.
      * by apply sublist_app.
      * intros Hz. by rewrite Heq.
    + subst q1. split; [done|]. split; [done|].
      exists (done_ ++ [id]). rewrite app_nil_r. split; [done|].
      split; [by apply sublist_inserts_r|done].
    + subst q1. split; [done|]. split; [done|].
      exists (done_ ++ [id]). rewrite app_nil_r. split; [done|].
      split; [by apply sublist_inserts_r|done].
Qed.

Lemma run_fifo_invariant t q0 evs q o q' o' :
  fifo_invariant t q0 q o ->
  run t evs (q, o) = (q', o') ->
  fifo_invariant t q0 q' o'.
Proof.
  unfold run. revert q o.
  induction evs as [|ev evs IH]; intros q o Hinv; cbn [fold_left].
  - by intros [= <- <-].
  - destruct (step t ev (q, o)) as [q1 o1] eqn:Hstep.
    apply IH. by eapply step_fifo_invariant.
Qed.

(** C8. One consumer dequeues type [t] alone while producers enqueue and
    finish jobs, in any interleaving and with any faults.  The ids it
    receives, followed by those still buffered, are the ids buffered at
    the start followed by the ids published since, in that order: ids
    leave the channel in the order in which they became pending.  The ids
    its [Dequeue] calls return are those received, in the same order,
    less the ones whose call failed after the receive; when no call
    failed they are exactly the ids received, up to the one in hand. *)
Theorem fifo_within_type t evs q q' o :
  filed_by_id q ->
  run t evs (q, no_observation) = (q', o) ->
  received o ++ chan t q' = chan t q ++ published o /\
  returned o `sublist_of` received o /\
  (failed o = O -> received o = returned o ++ option_list (held o)).
Proof.
  intros Hf Hrun.
  assert (Hinit : fifo_invariant t q q no_observation).
  { split; [by rewrite app_nil_r|]. split; [done|]. by exists []. }
  destruct (run_fifo_invariant _ _ _ _ _ _ _ Hinit Hrun)
    as (Hfifo & _ & done_ & Hrec & Hsub & Heq).
  split; [done|]. split.
  - rewrite Hrec. by apply sublist_inserts_r.
  - intros Hz. by rewrite Heq.
Qed.

Lemma fifo_within_type_witness :
  let s := run "build" fifo_sample (empty_queue, no_observation) in
  (received (snd s) ++ chan "build" (fst s)
     = chan "build" empty_queue ++ published (snd s) /\
   returned (snd s) `sublist_of` received (snd s) /\
   (failed (snd s) = O ->
    received (snd s) = returned (snd s) ++ option_list (held (snd s)))) /\
  published (snd s) = [uuid_of 1; uuid_of 2] /\
  returned (snd s) = [uuid_of 1; uuid_of 2].
Proof.
  intros s. split.
  - apply (fifo_within_type "build" fifo_sample empty_queue).
    + intros k j. simpl. rewrite lookup_empty. discriminate.
    + apply surjective_pairing.
  - split; vm_compute; reflexivity.
Defined.

(** * Further properties of the queue *)

(** ** Counting finished jobs *)

Lemma readJob_db q q' id : db q = db q' -> readJob q id = readJob q' id.
Proof. unfold readJob. by intros ->. Qed.

Lemma finished_db q q' id : db q = db q' -> finished q id = finished q' id.
Proof. unfold finished. intros H. by rewrite (readJob_db q q' id H). Qed.

Lemma countFinishedJobs_db q q' ids :
  db q = db q' -> countFinishedJobs q ids = countFinishedJobs q' ids.
Proof.
  intros Hdb. unfold countFinishedJobs. generalize O.
  induction ids as [|id ids IH]; intros n; simpl; [done|].
  rewrite (readJob_db q q' id Hdb). destruct (readJob q' id); auto.
Qed.

Lemma countFinishedJobs_from_inr q n ids m :
  countFinishedJobs_from q n ids = inr m ->
  m = (n + length (filter (fun id => finished q id = true) ids))%nat /\
  forall id, id ∈ ids -> exists j, db q !! id = Some (Doc j).
Proof.
  revert n. induction ids as [|id ids IH]; intros n; simpl.
  { intros [= <-]. split; [lia|]. intros id Hin. by apply elem_of_nil in Hin. }
  destruct (readJob q id) as [err|j] eqn:Hr; [done|].
  intros Hc. apply IH in Hc as [-> Hall]. split.
  - assert (Hf : finished q id = negb (IsZero (FinishedAt j))).
    { unfold finished. by rewrite Hr. }
    destruct (IsZero (FinishedAt j)); simpl in Hf.
    + rewrite filter_cons_False by congruence. lia.
    + rewrite filter_cons_True by done. simpl. lia.
  - intros id' Hin. apply elem_of_cons in Hin as [->|Hin]; [|by apply Hall].
    exists j. by apply readJob_Some.
Qed.


Lemma length_filter_all {A} (P : A -> Prop) `{forall x, Decision (P x)}
    (l : list A) :
  length (filter P l) = length l <-> forall x, x ∈ l -> P x.
Proof.
  induction l as [|x l IH].
  { split; [|done]. intros _ x Hin. by apply elem_of_nil in Hin. }
  rewrite filter_cons. pose proof (length_filter P l) as Hle.
  case_decide as HP; simpl.
  - split.
    + intros Hlen x' Hin. apply elem_of_cons in Hin as [->|Hin]; [done|].
      apply IH; [lia|done].
    + intros Hall. f_equal. apply IH. intros x' Hin. apply Hall.
      apply elem_of_cons. by right.
  - split; [lia|]. intros Hall. exfalso. apply HP, Hall.
    apply elem_of_cons. by left.
Qed.

(** The count is all-or-nothing and tells when every job is finished. *)
Lemma countFinishedJobs_all q ids n :
  countFinishedJobs q ids = inr n ->
  (n = length ids <-> forallb (finished q) ids = true).
Proof.
  intros Hc. apply countFinishedJobs_from_inr in Hc as [-> _]. simpl.
  rewrite length_filter_all.
  rewrite <- Is_true_true, forallb_True, Forall_forall.
  split; intros H x Hin; specialize (H x Hin).
  - by apply Is_true_true.
  - by apply Is_true_true in H.
Qed.



(** ** The dependency list as a set *)

(** X2. Whatever order the map is iterated in, [uniqueUUIDList] returns
    the ids of its argument without duplicates; two calls on lists with
    the same ids return the same ids, up to their order, and never more
    ids than were passed. *)
Theorem uniqueUUIDList_is_the_set iter1 iter2 (ids1 ids2 : list UUID) :
  (forall x, x ∈ ids1 <-> x ∈ ids2) ->
  NoDup (uniqueUUIDList iter1 ids1) /\
  (forall x, x ∈ uniqueUUIDList iter1 ids1 <-> x ∈ ids1) /\
  (length (uniqueUUIDList iter1 ids1) <= length ids1)%nat /\
  uniqueUUIDList iter1 ids1 ≡ₚ uniqueUUIDList iter2 ids2.
Proof.
  intros Hsame.
  pose proof (uniqueUUIDList_NoDup iter1 ids1) as Hnd1.
  pose proof (uniqueUUIDList_NoDup iter2 ids2) as Hnd2.
  split; [done|]. split; [intros x; apply uniqueUUIDList_elem_of|]. split.
  - apply submseteq_length, NoDup_submseteq; [done|].
    intros x. by rewrite uniqueUUIDList_elem_of.
  - apply NoDup_Permutation; [done..|]. intros x.
    by rewrite !uniqueUUIDList_elem_of.
Qed.

Lemma uniqueUUIDList_is_the_set_witness :
  uniqueUUIDList [0%nat] [uuid_lo; uuid_hi; uuid_lo]
    ≡ₚ uniqueUUIDList [1%nat] [uuid_hi; uuid_lo] /\
  (length (uniqueUUIDList [0%nat] [uuid_lo; uuid_hi; uuid_lo]) <= 3)%nat.
Proof.
  destruct (uniqueUUIDList_is_the_set [0%nat] [1%nat]
              [uuid_lo; uuid_hi; uuid_lo] [uuid_hi; uuid_lo])
    as (_ & _ & Hlen & Hperm).
  - intros x. rewrite !elem_of_cons, !elem_of_nil. tauto.
  - split; [exact Hperm|exact Hlen].
Defined.

(** ** Channels created on demand *)

Lemma pendingChannel_pending t q :
  pending (snd (pendingChannel t q))
  = match pending q !! t with
    | Some _ => pending q
    | None => <[t := []]> (pending q)
    end.
Proof. unfold pendingChannel. by destruct (pending q !! t). Qed.

(** X3. [pendingChannels] creates an empty channel for each listed type
    that has none and nothing else: the types with a channel afterwards
    are those that had one and those listed, and a channel that existed
    keeps the ids it buffers. *)
Theorem pendingChannels_creates_the_missing jobTypes q :
  dom (pending (pendingChannels jobTypes q))
    = dom (pending q) ∪ list_to_set jobTypes /\
  (forall t c, pending q !! t = Some c ->
     pending (pendingChannels jobTypes q) !! t = Some c) /\
  (forall t, pending q !! t = None -> t ∈ jobTypes ->
     pending (pendingChannels jobTypes q) !! t = Some []) /\
  db (pendingChannels jobTypes q) = db q /\
  dependants (pendingChannels jobTypes q) = dependants q.
Proof.
  unfold pendingChannels. revert q.
  induction jobTypes as [|jt ts IH]; intros q; cbn [fold_left].
  { repeat split; try done.
    - simpl. by rewrite union_empty_r_L.
    - intros t _ Hin. by apply elem_of_nil in Hin. }
  destruct (IH (snd (pendingChannel jt q))) as (Hdom & Hkeep & Hnew & Hdb & Hdep).
  pose proof (pendingChannel_pending jt q) as Hp.
  destruct (pendingChannel_inv jt q _ _ (surjective_pairing _))
    as (_ & Hdb1 & Hdep1 & _ & _).
  rewrite Hdb, Hdep. repeat split; try done.
  - rewrite Hdom, Hp, list_to_set_cons.
    destruct (pending q !! jt) eqn:Hjt.
    + assert (jt ∈ dom (pending q)) by (apply elem_of_dom; eauto).
      set_solver.
    + rewrite dom_insert_L. set_solver.
  - intros t c Ht. apply Hkeep. rewrite Hp.
    destruct (pending q !! jt) eqn:Hjt; [done|].
    rewrite lookup_insert_ne; [done|]. congruence.
  - intros t Ht Hin. rewrite Hp in Hkeep, Hnew.
    destruct (pending q !! jt) eqn:Hjt.
    + apply Hnew; [done|].
      apply elem_of_cons in Hin as [->|Hin]; [congruence|done].
    + destruct (decide (t = jt)) as [->|Hne].
      * apply Hkeep. by rewrite lookup_insert_eq.
      * apply Hnew; [by rewrite lookup_insert_ne|].
        apply elem_of_cons in Hin as [->|Hin]; [done|done].
Qed.

Lemma pendingChannels_creates_the_missing_witness :
  let q := FsJobQueue ∅ {[ "build"%string := [uuid_of 1] ]} ∅ in
  pending (pendingChannels ["build"; "ship"]%string q) !! "build"%string
    = Some [uuid_of 1] /\
  pending (pendingChannels ["build"; "ship"]%string q) !! "ship"%string
    = Some [].
Proof.
  intros q.
  destruct (pendingChannels_creates_the_missing ["build"; "ship"]%string q)
    as (_ & Hkeep & Hnew & _).
  split.
  - apply Hkeep. reflexivity.
  - apply Hnew; [reflexivity|].
    apply elem_of_cons. right. apply list_elem_of_singleton. reflexivity.
Defined.

(** ** What a successful Enqueue leaves *)

Lemma countFinishedJobs_all_finished q ids n :
  countFinishedJobs q ids = inr n ->
  (n = length ids <-> forall id, id ∈ ids -> finished q id = true).
Proof.
  intros Hc. apply countFinishedJobs_from_inr in Hc as [-> _]. simpl.
  apply length_filter_all.
Qed.

Lemma Enqueue_Ret_inv e jobType args dependencies q id q' :
  Enqueue e jobType args dependencies q = (Ret id, q') ->
  exists a n, args = Some a /\ id = uuid_New e /\ write_fails e = false /\
    let ds := uniqueUUIDList (map_iter e) dependencies in
    let j := Job id jobType a ds "" (time_Now e) 0 0 in
    let q1 := set_db (<[id := Doc j]> (db q)) q in
    countFinishedJobs q ds = inr n /\
    ((n = length ds /\ send jobType id q1 = (true, q')) \/
     (n ≠ length ds /\ q' = add_dependants id ds q1)).
Proof.
  unfold Enqueue. destruct args as [a|]; [|done].
  destruct (countFinishedJobs q _) as [err|n] eqn:Hc; [done|].
  unfold db_Write. destruct (write_fails e); [done|]. cbn [Id].
  case_decide as Hn.
  - destruct (send _ _ _) as [[] q2] eqn:Hs; [|done].
    intros [= <- <-]. exists a, n. repeat split; try done. by left.
  - intros [= <- <-]. exists a, n. repeat split; try done. by right.
Qed.

Lemma add_dependants_lookup (id : UUID) (ds : list UUID)
    (m : gmap UUID (list UUID)) (d : UUID) :
  NoDup ds ->
  default [] (fold_left (add_dependant id) ds m !! d)
  = default [] (m !! d) ++ (if decide (d ∈ ds) then [id] else []).
Proof.
  revert m. induction ds as [|x ds IH]; intros m Hnd; cbn [fold_left].
  { case_decide as H; [by apply elem_of_nil in H|by rewrite app_nil_r]. }
  apply NoDup_cons in Hnd as [Hx Hnd]. rewrite IH by done.
  unfold add_dependant. rewrite lookup_insert.
  destruct (decide (x = d)) as [->|Hne]; simpl.
  - case_decide as H1; [done|]. case_decide as H2.
    + by rewrite app_nil_r.
    + exfalso. apply H2, elem_of_cons. by left.
  - f_equal. case_decide as H1; case_decide as H2; try done.
    + exfalso. apply H2, elem_of_cons. by right.
    + exfalso. apply elem_of_cons in H2 as [->|H2]; done.
Qed.

(** X4. A job that [Enqueue] returns can be read back: its record is
    filed under the returned id with the type and arguments passed, the
    deduplicated dependency list and the clock reading as [queued_at],
    and [JobStatus] reports it queued, not started and not finished,
    whatever the result sink. *)
Theorem Enqueue_then_JobStatus e jobType args dependencies q id q' :
  Enqueue e jobType args dependencies q = (Ret id, q') ->
  id = uuid_New e /\
  exists a, args = Some a /\
    readJob q' id
      = inr (Job id jobType a (uniqueUUIDList (map_iter e) dependencies) ""
               (time_Now e) 0 0) /\
    forall accepts, JobStatus accepts id q' = inr (time_Now e, 0, 0).
Proof.
  intros HE.
  apply Enqueue_Ret_inv in HE as (a & n & -> & -> & _ & _ & Hq').
  split; [done|]. exists a. split; [done|].
  set (j := Job _ _ _ _ _ _ _ _) in *.
  assert (Hdb : db q' = <[uuid_New e := Doc j]> (db q)).
  { destruct Hq' as [[_ Hs]|[_ ->]]; [|done].
    apply send_inv in Hs as (-> & _). done. }
  assert (Hr : readJob q' (uuid_New e) = inr j).
  { apply readJob_Some. by rewrite Hdb, lookup_insert_eq. }
  split; [done|]. intros accepts. unfold JobStatus. by rewrite Hr.
Qed.

Lemma Enqueue_then_JobStatus_witness :
  let q' := snd (Enqueue (calm (uuid_of 1) 10) "build" (Some "{}"%string) []
                   empty_queue) in
  JobStatus (fun _ => false) (uuid_of 1) q' = inr (10, 0, 0).
Proof.
  intros q'.
  destruct (Enqueue_then_JobStatus (calm (uuid_of 1) 10) "build"
              (Some "{}"%string) [] empty_queue (uuid_of 1) q')
    as (_ & a & _ & _ & HS).
  - vm_compute. reflexivity.
  - exact (HS (fun _ => false)).
Defined.

(** X5. A job that was enqueued and not yet dequeued cannot be finished:
    [FinishJob] on the id [Enqueue] has just returned fails with
    [ErrNotRunning] and changes nothing. *)
Theorem FinishJob_before_Dequeue_rejected
    e jobType args dependencies q id q' e' res :
  Enqueue e jobType args dependencies q = (Ret id, q') ->
  FinishJob e' id res q' = (Err ErrNotRunning, q').
Proof.
  intros HE.
  apply Enqueue_Ret_inv in HE as (a & n & -> & -> & _ & _ & Hq').
  set (j := Job _ _ _ _ _ _ _ _) in *.
  assert (Hdb : db q' = <[uuid_New e := Doc j]> (db q)).
  { destruct Hq' as [[_ Hs]|[_ ->]]; [|done].
    apply send_inv in Hs as (-> & _). done. }
  unfold FinishJob, readJob. by rewrite Hdb, lookup_insert_eq.
Qed.

Lemma FinishJob_before_Dequeue_rejected_witness :
  let q' := snd (Enqueue (calm (uuid_of 1) 10) "build" (Some "{}"%string) []
                   empty_queue) in
  FinishJob (calm [] 11) (uuid_of 1) (Some "ok"%string) q'
    = (Err ErrNotRunning, q').
Proof.
  intros q'.
  apply (FinishJob_before_Dequeue_rejected (calm (uuid_of 1) 10) "build"
           (Some "{}"%string) [] empty_queue).
  vm_compute. reflexivity.
Defined.

(** X6. What a successful [Enqueue] does to the indices.  When every
    dependency is finished (or there is none) the id goes to the tail of
    its type's channel and the dependant index is untouched.  Otherwise no
    channel changes and the id is appended, once, to the dependant list of
    each of its dependencies, finished or not, and to no other list. *)
Theorem Enqueue_publishes_or_registers e jobType args dependencies q id q' :
  Enqueue e jobType args dependencies q = (Ret id, q') ->
  ((forall d, d ∈ dependencies -> finished q d = true) ->
   chan jobType q' = chan jobType q ++ [id] /\
   (forall t, t ≠ jobType -> chan t q' = chan t q) /\
   dependants q' = dependants q) /\
  (~ (forall d, d ∈ dependencies -> finished q d = true) ->
   (forall t, chan t q' = chan t q) /\
   forall d, default [] (dependants q' !! d)
     = default [] (dependants q !! d)
       ++ (if decide (d ∈ dependencies) then [id] else [])).
Proof.
  intros HE.
  apply Enqueue_Ret_inv in HE as (a & n & -> & -> & _ & Hc & Hq').
  apply countFinishedJobs_all_finished in Hc.
  set (ds := uniqueUUIDList (map_iter e) dependencies) in *.
  assert (Hall : n = length ds <->
                 forall d, d ∈ dependencies -> finished q d = true).
  { rewrite Hc. split; intros H d Hd; apply H;
      by apply (uniqueUUIDList_elem_of (map_iter e)). }
  split.
  - intros Hfin. apply Hall in Hfin.
    destruct Hq' as [[_ Hs]|[Hne _]]; [|done].
    apply send_inv in Hs as (_ & Hdep & _ & Hch). split; [|split].
    + rewrite Hch. by rewrite decide_True.
    + intros t Hne. rewrite Hch. rewrite decide_False by done.
      by rewrite app_nil_r.
    + done.
  - intros Hnot. destruct Hq' as [[Heq _]|[_ ->]].
    { exfalso. by apply Hnot, Hall. }
    split; [done|]. intros d. subst ds. cbn [add_dependants dependants set_dependants set_db].
    rewrite add_dependants_lookup by apply uniqueUUIDList_NoDup.
    f_equal. destruct (decide (d ∈ dependencies)) as [Hin|Hin].
    + rewrite decide_True; [done|]. by apply uniqueUUIDList_elem_of.
    + rewrite decide_False; [done|]. by rewrite uniqueUUIDList_elem_of.
Qed.

Lemma Enqueue_publishes_or_registers_witness :
  let q := snd (Enqueue (calm (uuid_of 1) 10) "build" (Some "{}"%string) []
                  empty_queue) in
  let q' := snd (Enqueue (calm (uuid_of 2) 11) "ship" (Some "{}"%string)
                   [uuid_of 1; uuid_of 1] q) in
  chan "build" q = [uuid_of 1] /\
  (forall t, chan t q' = chan t q) /\
  default [] (dependants q' !! uuid_of 1) = [uuid_of 2].
Proof.
  intros q q'.
  destruct (Enqueue_publishes_or_registers (calm (uuid_of 1) 10) "build"
              (Some "{}"%string) [] empty_queue (uuid_of 1) q) as [Hpub _].
  { vm_compute. reflexivity. }
  destruct (Enqueue_publishes_or_registers (calm (uuid_of 2) 11) "ship"
              (Some "{}"%string) [uuid_of 1; uuid_of 1] q (uuid_of 2) q')
    as [_ Hreg].
  { vm_compute. reflexivity. }
  destruct Hpub as (Hb & _ & _).
  { intros d Hd. by apply elem_of_nil in Hd. }
  destruct Hreg as (Hch & Hdep).
  { intros H. specialize (H (uuid_of 1)).
    assert (Hf : finished q (uuid_of 1) = false) by (vm_compute; reflexivity).
    rewrite Hf in H. discriminate H. apply elem_of_cons. by left. }
  split; [exact Hb|]. split; [exact Hch|].
  rewrite (Hdep (uuid_of 1)). vm_compute. reflexivity.
Defined.

(** ** What Dequeue does *)

Lemma Dequeue_finalize_Ret e accepts id q id' q' :
  Dequeue_finalize e accepts id q = (Ret id', q') ->
  exists j, db q !! id = Some (Doc j) /\ id' = Id j /\
    accepts (Args j) = true /\ write_fails e = false /\
    q' = set_db (<[id := Doc (set_StartedAt (time_Now e) j)]> (db q)) q.
Proof.
  unfold Dequeue_finalize, readJob.
  destruct (db q !! id) as [[j|]|] eqn:Hj; try done.
  destruct (accepts (Args j)) eqn:Hacc; [|done].
  unfold db_Write. destruct (write_fails e); [done|].
  intros [= <- <-]. by exists j.
Qed.

(** X7. A [Dequeue] that returns an id took it from the head of the
    channel of one of the accepted types and touched no other channel;
    the job's arguments fit the caller's sink; the only change to the
    store is the job's record, now stamped with the clock reading as
    [started_at]; the dependant index is untouched. *)
Theorem Dequeue_takes_the_head e jobTypes accepts q id q' :
  filed_by_id q ->
  Dequeue e jobTypes accepts q = (Ret id, q') ->
  exists t j,
    t ∈ jobTypes /\ chan t q = id :: chan t q' /\
    (forall t', t' ≠ t -> chan t' q' = chan t' q) /\
    db q !! id = Some (Doc j) /\ accepts (Args j) = true /\
    db q' = <[id := Doc (set_StartedAt (time_Now e) j)]> (db q) /\
    dependants q' = dependants q.
Proof.
  intros Hf. unfold Dequeue.
  destruct (Dequeue_wait e jobTypes q) as [[key|err|] q1] eqn:Hw; try done.
  apply Dequeue_wait_inv in Hw as (Hd & Hdep & t & Hin & Hhd & Hoth).
  intros Hfin.
  apply Dequeue_finalize_Ret in Hfin as (j & Hj & -> & Hacc & _ & ->).
  rewrite Hd in Hj. pose proof (Hf _ _ Hj) as ->.
  exists t, j. cbn [db dependants set_db]. rewrite Hd, Hdep.
  repeat split; done.
Qed.

Lemma Dequeue_takes_the_head_witness :
  let q := snd (exec_all
    [ CallEnqueue (calm (uuid_of 1) 10) "build" (Some "{}"%string) [];
      CallEnqueue (calm (uuid_of 2) 11) "build" (Some "{}"%string) [] ]
    empty_queue) in
  let q' := snd (Dequeue (calm [] 12) ["build"%string] any_payload q) in
  exists t j,
    t ∈ ["build"%string] /\ chan t q = uuid_of 1 :: chan t q' /\
    (forall t', t' ≠ t -> chan t' q' = chan t' q) /\
    db q !! uuid_of 1 = Some (Doc j) /\ any_payload (Args j) = true /\
    db q' = <[uuid_of 1 := Doc (set_StartedAt 12 j)]> (db q) /\
    dependants q' = dependants q.
Proof.
  intros q q'.
  apply (Dequeue_takes_the_head (calm [] 12) ["build"%string] any_payload q).
  - intros k j Hk.
    assert (Hdom : k ∈ dom (db q)) by (apply elem_of_dom; eauto).
    assert (Hq : dom (db q) = {[uuid_of 1; uuid_of 2]})
      by (vm_compute; reflexivity).
    rewrite Hq in Hdom.
    apply elem_of_union in Hdom as [Hk1|Hk2].
    + apply elem_of_singleton in Hk1. subst k.
      vm_compute in Hk. by injection Hk as <-.
    + apply elem_of_singleton in Hk2. subst k.
      vm_compute in Hk. by injection Hk as <-.
  - vm_compute. reflexivity.
Defined.

(** X8. A [Dequeue] that finds no id buffered for any accepted type
    returns [ErrCanceled] when its context is cancelled (before the call
    or during the wait) and waits otherwise.  In both cases the store, the
    dependant index and the ids every channel buffers are as before; when
    the context was already cancelled on entry not even a channel is
    created. *)
Theorem Dequeue_nothing_buffered e jobTypes accepts q :
  (forall t, t ∈ jobTypes -> chan t q = []) ->
  exists q',
    Dequeue e jobTypes accepts q
      = (if ctx_err e || ctx_done e then Err ErrCanceled else Blocked, q') /\
    db q' = db q /\ dependants q' = dependants q /\
    (forall t, chan t q' = chan t q) /\
    (ctx_err e = true -> q' = q).
Proof.
  intros Hempty. unfold Dequeue, Dequeue_wait.
  destruct (ctx_err e) eqn:Hce; simpl.
  { exists q. done. }
  destruct (pendingChannels_inv jobTypes q) as (Hd & Hdep & Hch).
  destruct (selectUUIDChannel e jobTypes (pendingChannels jobTypes q))
    as [r q1] eqn:Hs.
  apply selectUUIDChannel_inv in Hs as (Hd1 & Hdep1 & Hr).
  destruct r as [id|err|].
  - exfalso. destruct Hr as (t & Hin & Hhd & _).
    rewrite Hch, (Hempty t Hin) in Hhd. done.
  - destruct Hr as (-> & -> & ->). exists (pendingChannels jobTypes q). done.
  - destruct Hr as (-> & -> & _). exists (pendingChannels jobTypes q). done.
Qed.

Lemma Dequeue_nothing_buffered_witness :
  exists q',
    Dequeue (calm [] 12) ["build"%string] any_payload empty_queue
      = (Blocked, q') /\
    db q' = db empty_queue /\ dependants q' = dependants empty_queue /\
    (forall t, chan t q' = chan t empty_queue).
Proof.
  destruct (Dequeue_nothing_buffered (calm [] 12) ["build"%string]
              any_payload empty_queue) as (q' & HD & Hd & Hdep & Hch & _).
  - intros t _. unfold chan. simpl. by rewrite lookup_empty.
  - exists q'. split; [exact HD|]. split; [exact Hd|]. split; [exact Hdep|].
    exact Hch.
Defined.

(** X9. [reflect.Select] may serve any accepted type that has an id
    buffered: for each such type there is a draw for which the wait
    returns the head of that type's channel; and when the context is
    cancelled during the wait there is a draw for which it returns
    [ErrCanceled] although ids are buffered. *)
Theorem select_may_serve_any_ready_type e jobTypes q t id c :
  ctx_err e = false ->
  t ∈ jobTypes -> chan t q = id :: c ->
  (exists pick q',
     Dequeue_wait (with_pick pick e) jobTypes q = (Ret id, q') /\
     chan t q' = c) /\
  (ctx_done e = true ->
   exists pick q',
     Dequeue_wait (with_pick pick e) jobTypes q = (Err ErrCanceled, q')).
Proof.
  intros Hce Hin Hc.
  destruct (pendingChannels_inv jobTypes q) as (_ & _ & Hch).
  set (q1 := pendingChannels jobTypes q) in *.
  set (ready := ready_cases (ctx_done e) jobTypes q1).
  split.
  - assert (Hr : Some t ∈ ready).
    { unfold ready, ready_cases. apply elem_of_app. right.
      apply list_elem_of_fmap. exists t. split; [done|].
      apply list_elem_of_filter. split; [|done]. by rewrite Hch, Hc. }
    apply list_elem_of_lookup_1 in Hr as [i Hi].
    pose proof (lookup_lt_Some _ _ _ Hi) as Hlt.
    exists i, (set_pending (<[t := c]> (pending q1)) q1). split.
    + unfold Dequeue_wait, selectUUIDChannel. cbn [with_pick ctx_err ctx_done select_pick].
      rewrite Hce. fold q1. fold ready.
      rewrite Nat.mod_small by done. rewrite Hi, Hch, Hc. done.
    + rewrite chan_insert. by rewrite decide_True.
  - intros Hdone. exists O, q1.
    unfold Dequeue_wait, selectUUIDChannel. cbn [with_pick ctx_err ctx_done select_pick].
    rewrite Hce. fold q1. unfold ready_cases. rewrite Hdone.
    cbn [app length]. rewrite Nat.Div0.mod_0_l. done.
Qed.

Lemma select_may_serve_any_ready_type_witness :
  let q := snd (exec_all
    [ CallEnqueue (calm (uuid_of 1) 10) "build" (Some "{}"%string) [];
      CallEnqueue (calm (uuid_of 2) 11) "ship" (Some "{}"%string) [] ]
    empty_queue) in
  (exists pick q',
     Dequeue_wait (with_pick pick (calm [] 12)) ["build"; "ship"]%string q
       = (Ret (uuid_of 2), q') /\
     chan "ship" q' = []).
Proof.
  intros q.
  apply (select_may_serve_any_ready_type (calm [] 12) ["build"; "ship"]%string
           q "ship" (uuid_of 2) []).
  - reflexivity.
  - apply elem_of_cons. right. apply list_elem_of_singleton. reflexivity.
  - vm_compute. reflexivity.
Defined.

(** ** What FinishJob does *)

Lemma released_db q q' t depids :
  db q = db q' -> released q t depids = released q' t depids.
Proof.
  intros Hdb. unfold released. induction depids as [|d rest IH]; [done|].
  cbn [flat_map]. rewrite IH. f_equal.
  rewrite (readJob_db q q' d Hdb). destruct (readJob q' d) as [|dep]; [done|].
  assert (Hfa : forallb (finished q) (Dependencies dep)
                = forallb (finished q') (Dependencies dep)).
  { induction (Dependencies dep) as [|x l IHl]; [done|]. simpl.
    by rewrite IHl, (finished_db q q' x Hdb). }
  by rewrite Hfa.
Qed.

(** The loop of [FinishJob] sends, in the order of the list, the
    dependants all of whose dependencies are finished. *)
Lemma notify_released depids q q' :
  notify depids q = (Ret tt, q') ->
  forall t, chan t q' = chan t q ++ released q t depids.
Proof.
  revert q. induction depids as [|d rest IH]; intros q; simpl.
  { intros [= <-] t. by rewrite app_nil_r. }
  destruct (readJob q d) as [err|dep] eqn:Hr; [done|].
  destruct (countFinishedJobs q (Dependencies dep)) as [err|n] eqn:Hc; [done|].
  apply countFinishedJobs_all in Hc.
  case_decide as Hn.
  - destruct (send (Type_ dep) (Id dep) q) as [[] q1] eqn:Hs; [|done].
    apply send_inv in Hs as (Hd & _ & _ & Hch).
    intros Hrest t. rewrite (IH _ Hrest t), Hch.
    rewrite (released_db q1 q t rest Hd), <- app_assoc. f_equal. f_equal.
    apply Hc in Hn. rewrite Hn. simpl.
    case_decide as Ht.
    + by rewrite bool_decide_eq_true_2.
    + by rewrite bool_decide_eq_false_2.
  - intros Hrest t. rewrite (IH _ Hrest t). f_equal.
    destruct (forallb (finished q) (Dependencies dep)) eqn:Hfa; [|done].
    exfalso. by apply Hn, Hc.
Qed.

(** A [FinishJob] that did not return an error has written the record. *)
Lemma FinishJob_written_inv e id res q r q' :
  FinishJob e id res q = (r, q') ->
  (forall err, r ≠ Err err) ->
  exists j s q2,
    res = Some s /\ db q !! id = Some (Doc j) /\
    IsZero (StartedAt j) = false /\ IsZero (FinishedAt j) = true /\
    let j' := set_Result s (set_FinishedAt (time_Now e) j) in
    let q1 := set_db (<[id := Doc j']> (db q)) q in
    notify (default [] (dependants q !! id)) q1 = (r, q2) /\
    db q' = <[id := Doc j']> (db q) /\
    (r = Ret tt -> q' = set_dependants (delete id (dependants q2)) q2) /\
    dependants q2 = dependants q.
Proof.
  unfold FinishJob, readJob. intros HF Hr.
  destruct (db q !! id) as [[j|]|] eqn:Hj;
    try (injection HF as <- _; by destruct (Hr _ eq_refl)).
  destruct (IsZero (StartedAt j)) eqn:Hs;
    [injection HF as <- _; by destruct (Hr _ eq_refl)|].
  destruct (IsZero (FinishedAt j)) eqn:Hfz;
    [|injection HF as <- _; by destruct (Hr _ eq_refl)].
  simpl in HF.
  destruct res as [s|]; [|injection HF as <- _; by destruct (Hr _ eq_refl)].
  unfold db_Write in HF.
  destruct (write_fails e);
    [injection HF as <- _; by destruct (Hr _ eq_refl)|].
  destruct (notify _ _) as [rn q2] eqn:Hn.
  change (dependants (set_db _ q)) with (dependants q) in Hn.
  pose proof (notify_inv _ _ _ _ Hn) as (Hd & Hdep & _ & _).
  exists j, s, q2.
  destruct rn as [[]|err|]; injection HF as <- <-.
  - repeat split; try done.
  - by destruct (Hr _ eq_refl).
  - repeat split; try done.
Qed.

(** X10. A [FinishJob] that returns has replaced the record of a running
    job by the same record with the result and the clock reading as
    [finished_at], changed no other record, and removed the job's entry
    from the dependant index, leaving the other entries.  After it,
    [JobStatus] unmarshals the stored result into the caller's sink: it
    reports the three timestamps when the result fits and
    [ErrUnmarshal] when it does not. *)
Theorem FinishJob_records_the_result e id res q q' :
  FinishJob e id res q = (Ret tt, q') ->
  exists j s,
    res = Some s /\ db q !! id = Some (Doc j) /\
    IsZero (StartedAt j) = false /\ IsZero (FinishedAt j) = true /\
    db q' = <[id := Doc (set_Result s (set_FinishedAt (time_Now e) j))]>
              (db q) /\
    dependants q' = delete id (dependants q) /\
    (IsZero (time_Now e) = false ->
     forall accepts,
       JobStatus accepts id q'
       = if accepts s then inr (QueuedAt j, StartedAt j, time_Now e)
         else inl ErrUnmarshal).
Proof.
  intros HF.
  apply FinishJob_written_inv in HF
    as (j & s & q2 & -> & Hj & Hs & Hfz & _ & Hdb & Hq' & Hdep); [|done].
  exists j, s. repeat split; try done.
  - rewrite (Hq' eq_refl). simpl. by rewrite Hdep.
  - intros Hnow accepts. unfold JobStatus, readJob.
    rewrite Hdb, lookup_insert_eq. simpl. rewrite Hnow. simpl.
    by destruct (accepts s).
Qed.

Lemma FinishJob_records_the_result_witness :
  let q := snd (exec_all
    [ CallEnqueue (calm (uuid_of 1) 10) "build" (Some "{}"%string) [];
      CallDequeue (calm [] 11) ["build"%string] any_payload ]
    empty_queue) in
  let q' := snd (FinishJob (calm [] 12) (uuid_of 1) (Some "ok"%string) q) in
  dependants q' = delete (uuid_of 1) (dependants q) /\
  JobStatus any_payload (uuid_of 1) q' = inr (10, 11, 12) /\
  JobStatus (fun _ => false) (uuid_of 1) q' = inl ErrUnmarshal.
Proof.
  intros q q'.
  destruct (FinishJob_records_the_result (calm [] 12) (uuid_of 1)
              (Some "ok"%string) q q')
    as (j & s & Hres & Hj & _ & _ & _ & Hdep & HS).
  { vm_compute. reflexivity. }
  injection Hres as <-.
  assert (Hj' : db q !! uuid_of 1
                = Some (Doc (Job (uuid_of 1) "build" "{}" [] "" 10 11 0)))
    by (vm_compute; reflexivity).
  rewrite Hj' in Hj. injection Hj as <-.
  split; [exact Hdep|]. split.
  - apply (HS eq_refl any_payload).
  - apply (HS eq_refl (fun _ => false)).
Defined.

(** X11. A [FinishJob] that returns has published, to the tail of the
    channel of their type and in the order in which they were recorded
    under the finished job, exactly those of its dependants whose
    dependencies are all finished now; a dependant that still waits for
    another job is not published, and no channel loses an id. *)
Theorem FinishJob_releases_in_recorded_order e id res q q' :
  FinishJob e id res q = (Ret tt, q') ->
  forall t,
    chan t q' = chan t q ++ released q' t (default [] (dependants q !! id)).
Proof.
  intros HF t.
  apply FinishJob_written_inv in HF
    as (j & s & q2 & -> & Hj & Hs & Hfz & Hn & Hdb & Hq' & Hdep); [|done].
  rewrite (Hq' eq_refl).
  change (chan t (set_dependants _ q2)) with (chan t q2).
  rewrite (notify_released _ _ _ Hn t). f_equal.
  apply released_db. simpl.
  pose proof (notify_inv _ _ _ _ Hn) as (-> & _). done.
Qed.

Lemma FinishJob_releases_in_recorded_order_witness :
  let q := snd (exec_all
    [ CallEnqueue (calm (uuid_of 1) 10) "build" (Some "{}"%string) [];
      CallEnqueue (calm (uuid_of 2) 10) "build" (Some "{}"%string) [];
      CallEnqueue (calm (uuid_of 3) 11) "ship" (Some "{}"%string)
        [uuid_of 1];
      CallEnqueue (calm (uuid_of 4) 11) "ship" (Some "{}"%string)
        [uuid_of 1; uuid_of 2];
      CallEnqueue (calm (uuid_of 5) 11) "ship" (Some "{}"%string)
        [uuid_of 1];
      CallDequeue (calm [] 12) ["build"%string] any_payload ]
    empty_queue) in
  let q' := snd (FinishJob (calm [] 13) (uuid_of 1) (Some "ok"%string) q) in
  chan "ship" q' = [uuid_of 3; uuid_of 5].
Proof.
  intros q q'.
  rewrite (FinishJob_releases_in_recorded_order (calm [] 13) (uuid_of 1)
             (Some "ok"%string) q q').
  - vm_compute. reflexivity.
  - vm_compute. reflexivity.
Defined.

(** X12. A job is finished at most once: after a [FinishJob] that
    returned, or parked while releasing dependants, at a clock reading
    other than the zero instant, every further [FinishJob] on the same id
    fails with [ErrNotRunning] and changes nothing. *)
Theorem FinishJob_at_most_once e id res q r q' :
  FinishJob e id res q = (r, q') ->
  (forall err, r ≠ Err err) ->
  IsZero (time_Now e) = false ->
  forall e2 res2, FinishJob e2 id res2 q' = (Err ErrNotRunning, q').
Proof.
  intros HF Hr Hnow e2 res2.
  apply FinishJob_written_inv in HF
    as (j & s & q2 & _ & _ & Hs & _ & _ & Hdb & _); [|done].
  unfold FinishJob, readJob. rewrite Hdb, lookup_insert_eq. simpl.
  by rewrite Hs, Hnow.
Qed.

Lemma FinishJob_at_most_once_witness :
  let q := snd (exec_all
    [ CallEnqueue (calm (uuid_of 1) 10) "build" (Some "{}"%string) [];
      CallDequeue (calm [] 11) ["build"%string] any_payload ]
    empty_queue) in
  let q' := snd (FinishJob (calm [] 12) (uuid_of 1) (Some "ok"%string) q) in
  FinishJob (calm [] 13) (uuid_of 1) (Some "again"%string) q'
    = (Err ErrNotRunning, q').
Proof.
  intros q q'.
  apply (FinishJob_at_most_once (calm [] 12) (uuid_of 1) (Some "ok"%string)
           q (Ret tt) q').
  - vm_compute. reflexivity.
  - intros err H. discriminate H.
  - reflexivity.
Defined.

(** ** Invariants of the indices *)

Lemma send_bounded t id q b q' :
  send t id q = (b, q') -> bounded q -> bounded q'.
Proof.
  intros Hs Hb t'. apply send_inv in Hs as (_ & _ & Hcap & Hch).
  rewrite Hch. specialize (Hb t'). destruct b; [|by rewrite app_nil_r].
  case_decide as Ht; [|by rewrite app_nil_r].
  subst t'. rewrite length_app. simpl.
  assert ((length (chan t q) < capacity)%nat) by by apply Hcap. lia.
Qed.

Lemma notify_bounded depids q r q' :
  notify depids q = (r, q') -> bounded q -> bounded q'.
Proof.
  revert q. induction depids as [|d rest IH]; intros q; simpl.
  { by intros [= <- <-]. }
  destruct (readJob q d) as [err|dep]; [by intros [= <- <-]|].
  destruct (countFinishedJobs q (Dependencies dep)) as [err|n];
    [by intros [= <- <-]|].
  case_decide; [|apply IH].
  destruct (send (Type_ dep) (Id dep) q) as [b q1] eqn:Hs.
  pose proof (send_bounded _ _ _ _ _ Hs) as Hsb.
  destruct b; [|intros [= <- <-]; done].
  intros Hn Hb. eapply IH; eauto.
Qed.

Lemma New_loop_bounded ids q q' :
  New_loop ids q = Ret q' -> bounded q -> bounded q'.
Proof.
  revert q. induction ids as [|k ids IH]; intros q; simpl.
  { by intros [= <-]. }
  destruct (readJob q k) as [err|j]; [done|].
  destruct (IsZero (StartedAt j)); [apply IH|].
  destruct (countFinishedJobs q (Dependencies j)) as [err|n]; [done|].
  case_decide.
  - destruct (send (Type_ j) (Id j) q) as [[] q1] eqn:Hs; [|done].
    intros HN Hb. eapply IH; [done|]. by eapply send_bounded.
  - intros HN Hb. eapply IH; [done|]. done.
Qed.

Lemma bounded_no_channel d dep : bounded (FsJobQueue d ∅ dep).
Proof.
  intros t. unfold chan. simpl. rewrite lookup_empty. simpl. lia.
Qed.

Lemma exec_bounded c q : bounded q -> bounded (snd (exec c q)).
Proof.
  intros Hb. destruct c as [e|e jt args deps|e ts acc|e id res]; simpl.
  - unfold New. destruct (list_fails e); [apply bounded_no_channel|].
    destruct (New_loop _ _) as [q'|err|] eqn:HN; simpl;
      try apply bounded_no_channel.
    eapply New_loop_bounded; [done|]. apply bounded_no_channel.
  - assert (Hq : bounded (snd (Enqueue e jt args deps q))).
    { unfold Enqueue. destruct args as [a|]; [|done].
      destruct (countFinishedJobs q _) as [err|n]; [done|].
      unfold db_Write. destruct (write_fails e); [done|].
      case_decide; [|done].
      destruct (send _ _ _) as [b q2] eqn:Hs.
      apply send_bounded in Hs; [|done]. by destruct b. }
    destruct (Enqueue e jt args deps q) as [[id|err|] q']; done.
  - assert (Hq : bounded (snd (Dequeue e ts acc q))).
    { unfold Dequeue.
      destruct (Dequeue_wait e ts q) as [rw q1] eqn:Hw.
      apply Dequeue_wait_inv in Hw as (_ & _ & Hr).
      assert (Hb1 : bounded q1).
      { intros t. specialize (Hb t). destruct rw as [id|err|].
        - destruct Hr as (t0 & _ & Hhd & Hoth).
          destruct (decide (t = t0)) as [->|Hne].
          + rewrite Hhd in Hb. simpl in Hb. lia.
          + by rewrite Hoth.
        - destruct Hr as [_ Hch]. by rewrite Hch.
        - destruct Hr as (_ & Hch & _). by rewrite Hch. }
      destruct rw as [id|err|]; try done.
      destruct (Dequeue_finalize e acc id q1) as [rf q2] eqn:Hfin.
      apply Dequeue_finalize_inv in Hfin as (Hp & _ & _). simpl.
      intros t. unfold chan. rewrite Hp. apply Hb1. }
    destruct (Dequeue e ts acc q) as [[id|err|] q']; done.
  - assert (Hq : bounded (snd (FinishJob e id res q))).
    { unfold FinishJob. destruct (readJob q id) as [err|j]; [done|].
      destruct (_ || _); [done|]. destruct res as [s|]; [|done].
      unfold db_Write. destruct (write_fails e); [done|].
      destruct (notify _ _) as [rn q2] eqn:Hn.
      apply notify_bounded in Hn; [|done].
      destruct rn as [[]|err|]; done. }
    destruct (FinishJob e id res q) as [[[]|err|] q']; done.
Qed.

(** X13. No sequence of calls ([New], [Enqueue], [Dequeue], [FinishJob],
    whatever they return) makes a channel buffer more than [capacity]
    ids. *)
Theorem capacity_never_exceeded cs q :
  bounded q -> bounded (snd (exec_all cs q)).
Proof.
  revert q. induction cs as [|c cs IH]; intros q Hb; simpl; [done|].
  pose proof (exec_bounded c q Hb) as Hb1.
  destruct (exec c q) as [r q1]. simpl in Hb1.
  specialize (IH q1 Hb1). destruct (exec_all cs q1) as [rs q2]. done.
Qed.

Lemma capacity_never_exceeded_witness :
  (length (chan "ship"
     (snd (exec_all
        (backlog_script ++
         [ CallEnqueue (calm (uuid_of 200) 14) "ship" (Some "{}"%string) [];
           CallFinishJob (calm [] 15) (uuid_of 0) (Some "ok"%string) ])
        empty_queue))) <= capacity)%nat.
Proof.
  apply (capacity_never_exceeded _ empty_queue).
  intros t. unfold chan. simpl. rewrite lookup_empty. simpl. lia.
Defined.

Lemma typed_channels_step q q' :
  typed_channels q ->
  (forall id j, db q !! id = Some (Doc j) ->
     exists j', db q' !! id = Some (Doc j') /\ Type_ j' = Type_ j) ->
  (forall t id, id ∈ chan t q' -> id ∈ chan t q) ->
  typed_channels q'.
Proof.
  intros Ht Hkeep Hsub t id Hin.
  destruct (Ht t id (Hsub t id Hin)) as (j & Hj & Hty).
  destruct (Hkeep id j Hj) as (j' & Hj' & Hty'). exists j'. split; [done|].
  congruence.
Qed.

Lemma send_typed t id q b q' :
  send t id q = (b, q') -> typed_channels q ->
  (exists j, db q !! id = Some (Doc j) /\ Type_ j = t) ->
  typed_channels q'.
Proof.
  intros Hs Ht Hid t' id' Hin. apply send_inv in Hs as (Hd & _ & _ & Hch).
  rewrite Hd. rewrite Hch in Hin. apply elem_of_app in Hin as [Hin|Hin].
  { by apply Ht. }
  destruct b; [|by apply elem_of_nil in Hin].
  case_decide as Heq; [|by apply elem_of_nil in Hin].
  apply list_elem_of_singleton in Hin. by subst.
Qed.

Lemma notify_typed depids q r q' :
  notify depids q = (r, q') ->
  filed_by_id q -> typed_channels q -> typed_channels q'.
Proof.
  revert q. induction depids as [|d rest IH]; intros q; simpl.
  { by intros [= <- <-]. }
  destruct (readJob q d) as [err|dep] eqn:Hr; [by intros [= <- <-]|].
  apply readJob_Some in Hr.
  destruct (countFinishedJobs q (Dependencies dep)) as [err|n];
    [by intros [= <- <-]|].
  case_decide; [|apply IH].
  destruct (send (Type_ dep) (Id dep) q) as [b q1] eqn:Hs.
  intros Hn Hf Ht.
  assert (Ht1 : typed_channels q1).
  { eapply send_typed; [done..|]. exists dep. split; [|done].
    by rewrite (Hf _ _ Hr). }
  apply send_inv in Hs as (Hd & _).
  destruct b; [|by injection Hn as <- <-].
  eapply IH; [done| |done]. by apply (filed_by_id_db q).
Qed.

Lemma New_loop_typed ids q q' :
  New_loop ids q = Ret q' ->
  filed_by_id q -> typed_channels q ->
  db q' = db q /\ typed_channels q'.
Proof.
  revert q. induction ids as [|k ids IH]; intros q; simpl.
  { by intros [= <-]. }
  destruct (readJob q k) as [err|j] eqn:Hr; [done|].
  apply readJob_Some in Hr.
  destruct (IsZero (StartedAt j)); [apply IH|].
  destruct (countFinishedJobs q (Dependencies j)) as [err|n]; [done|].
  case_decide.
  - destruct (send (Type_ j) (Id j) q) as [[] q1] eqn:Hs; [|done].
    intros HN Hf Ht.
    assert (Ht1 : typed_channels q1).
    { eapply send_typed; [done..|]. exists j. split; [|done].
      by rewrite (Hf _ _ Hr). }
    apply send_inv in Hs as (Hd & _).
    apply IH in HN as [-> HN]; [done| |done]. by apply (filed_by_id_db q).
  - intros HN Hf Ht. apply IH in HN as [-> HN]; done.
Qed.

Lemma typed_no_channel d dep : typed_channels (FsJobQueue d ∅ dep).
Proof.
  intros t id Hin. unfold chan in Hin. simpl in Hin.
  rewrite lookup_empty in Hin. by apply elem_of_nil in Hin.
Qed.

Lemma Dequeue_inv e jobTypes accepts q r q' :
  Dequeue e jobTypes accepts q = (r, q') ->
  dependants q' = dependants q /\
  (forall t id, id ∈ chan t q' -> id ∈ chan t q) /\
  (db q' = db q \/
   exists key j, db q !! key = Some (Doc j) /\ r = Ret (Id j) /\
     db q' = <[key := Doc (set_StartedAt (time_Now e) j)]> (db q)).
Proof.
  unfold Dequeue. destruct (Dequeue_wait e jobTypes q) as [rw q1] eqn:Hw.
  apply Dequeue_wait_inv in Hw as (Hd & Hdep & Hr).
  assert (Hsub : forall t id, id ∈ chan t q1 -> id ∈ chan t q).
  { intros t id. destruct rw as [key|err|].
    - destruct Hr as (t0 & _ & Hhd & Hoth).
      destruct (decide (t = t0)) as [->|Hne].
      + rewrite Hhd. intros Hin. apply elem_of_cons. by right.
      + by rewrite Hoth.
    - destruct Hr as [_ Hch]. by rewrite Hch.
    - destruct Hr as (_ & Hch & _). by rewrite Hch. }
  destruct rw as [key|err|]; try (intros [= <- <-]; auto).
  intros Hfin. apply Dequeue_finalize_inv in Hfin as (Hp & Hdep' & Hrf).
  assert (Hch : forall t, chan t q' = chan t q1)
    by (intros t; unfold chan; by rewrite Hp).
  split; [congruence|]. split.
  { intros t id. rewrite Hch. apply Hsub. }
  destruct r as [id'|err|].
  - destruct Hrf as (j & Hj & -> & Hdb). right. exists key, j.
    rewrite <- Hd. done.
  - left. by subst.
  - left. by subst.
Qed.

Lemma exec_well_formed c q :
  filed_by_id q -> typed_channels q ->
  match c with
  | CallEnqueue e _ _ _ => db q !! uuid_New e = None
  | _ => True
  end ->
  filed_by_id (snd (exec c q)) /\ typed_channels (snd (exec c q)).
Proof.
  intros Hf Ht Hfresh.
  destruct c as [e|e jt args deps|e ts acc|e id res]; simpl.
  - unfold New. destruct (list_fails e); [split; [done|apply typed_no_channel]|].
    destruct (New_loop _ _) as [q'|err|] eqn:HN; simpl;
      try (split; [done|apply typed_no_channel]).
    apply New_loop_typed in HN as [Hd HN];
      [|done|apply typed_no_channel].
    split; [|done]. by apply (filed_by_id_db q).
  - assert (Hq : filed_by_id (snd (Enqueue e jt args deps q)) /\
                 typed_channels (snd (Enqueue e jt args deps q))).
    { split.
      { by apply (Enqueue_inv e jt args deps q _ _ (surjective_pairing _)). }
      unfold Enqueue. destruct args as [a|]; [|done].
      destruct (countFinishedJobs q _) as [err|n]; [done|].
      unfold db_Write. destruct (write_fails e); [done|]. cbn [Id].
      set (j := Job _ _ _ _ _ _ _ _).
      set (q1 := set_db (<[uuid_New e := Doc j]> (db q)) q).
      assert (Ht1 : typed_channels q1).
      { apply (typed_channels_step q); [done| |done].
        intros id j0 Hj0. exists j0. split; [|done]. simpl.
        rewrite lookup_insert_ne; [done|]. congruence. }
      case_decide; [|done].
      destruct (send jt (uuid_New e) q1) as [b q2] eqn:Hs.
      assert (typed_channels q2).
      { eapply send_typed; [done..|]. exists j. split; [|done].
        simpl. by rewrite lookup_insert_eq. }
      by destruct b. }
    destruct (Enqueue e jt args deps q) as [[id|err|] q']; done.
  - assert (Hq : filed_by_id (snd (Dequeue e ts acc q)) /\
                 typed_channels (snd (Dequeue e ts acc q))).
    { destruct (Dequeue e ts acc q) as [r q'] eqn:HD. simpl.
      apply Dequeue_inv in HD as (_ & Hsub & [Hdb|(key & j & Hj & _ & Hdb)]).
      - split; [by apply (filed_by_id_db q)|].
        apply (typed_channels_step q); [done| |done].
        intros id j Hj. exists j. by rewrite Hdb.
      - split.
        { apply (filed_by_id_insert q q' key
                   (set_StartedAt (time_Now e) j)); [done| |done].
          by apply Hf in Hj. }
        apply (typed_channels_step q); [done| |done].
        intros id j0 Hj0. rewrite Hdb, lookup_insert.
        case_decide as Hk; [|by exists j0]. subst id.
        rewrite Hj in Hj0. injection Hj0 as <-. by eexists. }
    destruct (Dequeue e ts acc q) as [[id|err|] q']; done.
  - assert (Hq : filed_by_id (snd (FinishJob e id res q)) /\
                 typed_channels (snd (FinishJob e id res q))).
    { split.
      { by apply (FinishJob_inv e id res q _ _ (surjective_pairing _)). }
      unfold FinishJob. destruct (readJob q id) as [err|j] eqn:Hr; [done|].
      apply readJob_Some in Hr.
      destruct (_ || _); [done|]. destruct res as [s|]; [|done].
      unfold db_Write. destruct (write_fails e); [done|].
      set (j' := set_Result s (set_FinishedAt (time_Now e) j)).
      set (q1 := set_db (<[id := Doc j']> (db q)) q).
      assert (Hf1 : filed_by_id q1).
      { apply (filed_by_id_insert q q1 id j'); [done| |done].
        by apply Hf in Hr. }
      assert (Ht1 : typed_channels q1).
      { apply (typed_channels_step q); [done| |done].
        intros k j0 Hj0. simpl. rewrite lookup_insert.
        case_decide as Hk; [|by exists j0]. subst k.
        rewrite Hr in Hj0. injection Hj0 as <-. by eexists. }
      destruct (notify _ q1) as [rn q2] eqn:Hn.
      apply notify_typed in Hn; [|done..].
      destruct rn as [[]|err|]; done. }
    destruct (FinishJob e id res q) as [[[]|err|] q']; done.
Qed.

(** X14. Along any sequence of calls in which [uuid.New] never draws an
    id already in the store, every record stays filed under the id it
    carries and every id a channel buffers has a record, of the type of
    that channel: no call publishes an id before its record is written,
    to the channel of another type, or rewrites the type of a record. *)
Theorem channels_hold_ids_of_their_type cs q :
  filed_by_id q -> typed_channels q -> fresh_ids cs q ->
  filed_by_id (snd (exec_all cs q)) /\
  typed_channels (snd (exec_all cs q)).
Proof.
  revert q. induction cs as [|c cs IH]; intros q Hf Ht Hfr; simpl; [done|].
  destruct Hfr as [Hc Hfr].
  destruct (exec_well_formed c q Hf Ht Hc) as [Hf1 Ht1].
  destruct (exec c q) as [r q1]. simpl in *.
  destruct (IH q1 Hf1 Ht1 Hfr) as [Hf2 Ht2].
  by destruct (exec_all cs q1) as [rs q2].
Qed.

Lemma channels_hold_ids_of_their_type_witness :
  typed_channels (snd (exec_all recovery_script empty_queue)).
Proof.
  apply (channels_hold_ids_of_their_type recovery_script empty_queue).
  - intros k j. simpl. rewrite lookup_empty. discriminate.
  - apply typed_no_channel.
  - repeat split; vm_compute; reflexivity.
Defined.

Lemma Dequeue_Ret_inv e jobTypes accepts q id q' :
  filed_by_id q ->
  Dequeue e jobTypes accepts q = (Ret id, q') ->
  exists t j,
    t ∈ jobTypes /\ chan t q = id :: chan t q' /\
    db q !! id = Some (Doc j) /\
    db q' = <[id := Doc (set_StartedAt (time_Now e) j)]> (db q).
Proof.
  intros Hf. unfold Dequeue.
  destruct (Dequeue_wait e jobTypes q) as [[key|err|] q1] eqn:Hw; try done.
  apply Dequeue_wait_inv in Hw as (Hd & _ & t & Hin & Hhd & _).
  intros Hfin.
  apply Dequeue_finalize_Ret in Hfin as (j & Hj & -> & _ & _ & ->).
  rewrite Hd in Hj. pose proof (Hf _ _ Hj) as ->.
  exists t, j. cbn [db set_db]. rewrite Hd. done.
Qed.

(** X15. From a queue whose channels hold ids of their type, [Dequeue]
    only returns jobs of a type the caller accepts; on return the job's
    record carries the clock reading as [started_at]. *)
Theorem Dequeue_returns_an_accepted_type e jobTypes accepts q id q' :
  filed_by_id q -> typed_channels q ->
  Dequeue e jobTypes accepts q = (Ret id, q') ->
  exists j, db q !! id = Some (Doc j) /\ Type_ j ∈ jobTypes /\
    readJob q' id = inr (set_StartedAt (time_Now e) j).
Proof.
  intros Hf Ht HD.
  destruct (Dequeue_Ret_inv e jobTypes accepts q id q' Hf HD)
    as (t & j & Hin & Hhd & Hj & Hdb).
  exists j. split; [done|]. split.
  - destruct (Ht t id) as (j0 & Hj0 & Hty).
    { rewrite Hhd. apply elem_of_cons. by left. }
    rewrite Hj in Hj0. injection Hj0 as <-. by rewrite Hty.
  - apply readJob_Some. by rewrite Hdb, lookup_insert_eq.
Qed.

Lemma Dequeue_returns_an_accepted_type_witness :
  let q1 := snd (exec (CallEnqueue (calm (uuid_of 1) 10) "build"
                         (Some "{}"%string) []) empty_queue) in
  let q := snd (exec (CallEnqueue (calm (uuid_of 2) 11) "ship"
                        (Some "{}"%string) []) q1) in
  exists j, db q !! uuid_of 2 = Some (Doc j) /\
    Type_ j ∈ ["ship"; "test"]%string.
Proof.
  intros q1 q.
  assert (H1 : filed_by_id q1 /\ typed_channels q1).
  { apply exec_well_formed.
    - intros k j. simpl. rewrite lookup_empty. discriminate.
    - apply typed_no_channel.
    - reflexivity. }
  assert (H2 : filed_by_id q /\ typed_channels q).
  { apply exec_well_formed; [apply H1..|]. vm_compute. reflexivity. }
  destruct H2 as [Hf Ht].
  destruct (Dequeue_returns_an_accepted_type (calm [] 12)
              ["ship"; "test"]%string any_payload q (uuid_of 2)
              (snd (Dequeue (calm [] 12) ["ship"; "test"]%string
                      any_payload q)) Hf Ht)
    as (j & Hj & Hty & _).
  { vm_compute. reflexivity. }
  exists j. split; [exact Hj|exact Hty].
Defined.

(** ** What New returns *)


Lemma db_List_elem_of (order : list nat) (dir : gmap UUID file) (k : UUID) :
  k ∈ db_List order dir <-> is_Some (dir !! k).
Proof.
  unfold db_List. rewrite range_order_perm, elem_of_elements.
  apply elem_of_dom.
Qed.

Lemma New_loop_Ret_inv ids q q' :
  New_loop ids q = Ret q' ->
  db q' = db q /\
  forall k, k ∈ ids ->
    exists j, db q !! k = Some (Doc j) /\
      (IsZero (StartedAt j) = false ->
       forall d, d ∈ Dependencies j -> exists jd, db q !! d = Some (Doc jd)).
Proof.
  revert q. induction ids as [|k ids IH]; intros q; simpl.
  { intros [= <-]. split; [done|]. intros k Hk. by apply elem_of_nil in Hk. }
  destruct (readJob q k) as [err|j] eqn:Hr; [done|].
  apply readJob_Some in Hr.
  destruct (IsZero (StartedAt j)) eqn:Hz.
  { intros HN. apply IH in HN as [Hd Hall]. split; [done|].
    intros k' Hk'. apply elem_of_cons in Hk' as [->|Hk']; [|by apply Hall].
    exists j. split; [done|]. congruence. }
  destruct (countFinishedJobs q (Dependencies j)) as [err|n] eqn:Hc; [done|].
  apply countFinishedJobs_from_inr in Hc as [_ Hdeps].
  assert (Hhead : exists j0, db q !! k = Some (Doc j0) /\
    (IsZero (StartedAt j0) = false ->
     forall d, d ∈ Dependencies j0 -> exists jd, db q !! d = Some (Doc jd))).
  { exists j. split; [done|]. intros _. done. }
  assert (Hgo : forall q1, db q1 = db q -> New_loop ids q1 = Ret q' ->
    db q' = db q /\
    forall k', k' ∈ k :: ids ->
      exists j0, db q !! k' = Some (Doc j0) /\
        (IsZero (StartedAt j0) = false ->
         forall d, d ∈ Dependencies j0 ->
           exists jd, db q !! d = Some (Doc jd))).
  { intros q1 Hd1 HN. apply IH in HN as [Hd Hall]. rewrite Hd1 in Hd, Hall.
    split; [done|]. intros k' Hk'.
    apply elem_of_cons in Hk' as [->|Hk']; [done|by apply Hall]. }
  case_decide.
  - destruct (send (Type_ j) (Id j) q) as [[] q1] eqn:Hs; [|done].
    apply send_inv in Hs as (Hd1 & _). by apply Hgo.
  - by apply Hgo.
Qed.


(** X16. [New] returns a queue only when the listing succeeded and every
    file of the directory decodes; the queue's store is the directory,
    unchanged; and every dependency of a job it went on with (one whose
    [started_at] is set) has a decodable record. *)
Theorem New_returns_over_a_readable_store
    (e : env) (dir : gmap UUID file) (q : fsJobQueue) :
  New e dir = Ret q ->
  list_fails e = false /\ db q = dir /\
  (forall k, dir !! k ≠ Some Garbage) /\
  (forall k j d, dir !! k = Some (Doc j) -> IsZero (StartedAt j) = false ->
     d ∈ Dependencies j -> exists jd, dir !! d = Some (Doc jd)).
Proof.
  unfold New. destruct (list_fails e); [done|]. intros HN.
  apply New_loop_Ret_inv in HN as [Hd Hall]. simpl in Hd, Hall.
  split; [done|]. split; [done|]. split.
  - intros k Hk. destruct (Hall k) as (j & Hj & _); [|congruence].
    apply db_List_elem_of. eauto.
  - intros k j d Hj Hz Hin. destruct (Hall k) as (j0 & Hj0 & Hdeps).
    { apply db_List_elem_of. eauto. }
    rewrite Hj in Hj0. injection Hj0 as <-. by apply Hdeps.
Qed.

Lemma New_returns_over_a_readable_store_witness :
  let dir := db (snd (exec_all redelivery_script empty_queue)) in
  let q := FsJobQueue dir {[ "build"%string := [uuid_of 1] ]} ∅ in
  New (calm [] 20) dir = Ret q /\
  db q = dir /\ dir !! uuid_of 1 ≠ Some Garbage.
Proof.
  intros dir q.
  assert (HN : New (calm [] 20) dir = Ret q) by (vm_compute; reflexivity).
  destruct (New_returns_over_a_readable_store (calm [] 20) dir q HN)
    as (_ & Hd & Hg & _).
  split; [exact HN|]. split; [exact Hd|]. apply Hg.
Defined.



(** ** The status of the other jobs *)

Lemma JobStatus_db accepts id q q' :
  db q' !! id = db q !! id -> JobStatus accepts id q' = JobStatus accepts id q.
Proof. unfold JobStatus, readJob. by intros ->. Qed.

Lemma Enqueue_db_other e jobType args dependencies q k :
  k ≠ uuid_New e ->
  db (snd (Enqueue e jobType args dependencies q)) !! k = db q !! k.
Proof.
  intros Hk. unfold Enqueue. destruct args as [a|]; [|done].
  destruct (countFinishedJobs q _) as [err|n]; [done|].
  unfold db_Write. destruct (write_fails e); [done|]. cbn [Id].
  case_decide.
  - destruct (send _ _ _) as [b q2] eqn:Hs.
    apply send_inv in Hs as (Hd & _).
    assert (db q2 !! k = db q !! k)
      by (rewrite Hd; simpl; by rewrite lookup_insert_ne).
    by destruct b.
  - simpl. by rewrite lookup_insert_ne.
Qed.

Lemma FinishJob_db_other e id res q k :
  k ≠ id -> db (snd (FinishJob e id res q)) !! k = db q !! k.
Proof.
  intros Hk. unfold FinishJob. destruct (readJob q id) as [err|j]; [done|].
  destruct (_ || _); [done|]. destruct res as [s|]; [|done].
  unfold db_Write. destruct (write_fails e); [done|].
  destruct (notify _ _) as [rn q2] eqn:Hn.
  apply notify_inv in Hn as (Hd & _).
  assert (db q2 !! k = db q !! k)
    by (rewrite Hd; simpl; by rewrite lookup_insert_ne).
  by destruct rn as [[]|err|].
Qed.

(** X18. An operation changes the status of its own job only: what
    [JobStatus] reports for a job is the same after an [Enqueue] that
    draws another id, after a [FinishJob] on another id, whatever they
    return, and after a [Dequeue] that does not return that job. *)
Theorem JobStatus_of_other_jobs accepts id0 q :
  (forall e jobType args dependencies,
     uuid_New e ≠ id0 ->
     JobStatus accepts id0 (snd (Enqueue e jobType args dependencies q))
       = JobStatus accepts id0 q) /\
  (forall e id res,
     id ≠ id0 ->
     JobStatus accepts id0 (snd (FinishJob e id res q))
       = JobStatus accepts id0 q) /\
  (filed_by_id q ->
   forall e jobTypes sink r q',
     Dequeue e jobTypes sink q = (r, q') -> r ≠ Ret id0 ->
     JobStatus accepts id0 q' = JobStatus accepts id0 q).
Proof.
  split; [|split].
  - intros e jt args deps Hne. apply JobStatus_db, Enqueue_db_other. congruence.
  - intros e id res Hne. apply JobStatus_db, FinishJob_db_other. congruence.
  - intros Hf e ts sink r q' HD Hr. apply JobStatus_db.
    apply Dequeue_inv in HD as (_ & _ & [->|(key & j & Hj & -> & ->)]); [done|].
    rewrite lookup_insert_ne; [done|].
    intros <-. apply Hr. by rewrite (Hf _ _ Hj).
Qed.

Lemma JobStatus_of_other_jobs_witness :
  let q := snd (exec_all
    [ CallEnqueue (calm (uuid_of 1) 10) "build" (Some "{}"%string) [];
      CallDequeue (calm [] 11) ["build"%string] any_payload ]
    empty_queue) in
  JobStatus any_payload (uuid_of 1)
    (snd (Enqueue (calm (uuid_of 2) 12) "ship" (Some "{}"%string)
            [uuid_of 1] q))
    = JobStatus any_payload (uuid_of 1) q /\
  JobStatus any_payload (uuid_of 1)
    (snd (FinishJob (calm [] 13) (uuid_of 2) (Some "ok"%string) q))
    = JobStatus any_payload (uuid_of 1) q.
Proof.
  intros q.
  destruct (JobStatus_of_other_jobs any_payload (uuid_of 1) q)
    as (HE & HF & _).
  split.
  - apply HE. simpl. unfold uuid_of. intros H. discriminate H.
  - apply HF. unfold uuid_of. intros H. discriminate H.
Defined.

(** * Properties of the test distribution *)

(** X19. [FilenameFromType] accepts exactly the formats
    [ListOutputFormats] lists: on a listed format it returns the image
    name and MIME type without error, on any other the empty strings and
    an error that quotes the format. *)
Theorem FilenameFromType_accepts_the_listed_formats (outputFormat : string) :
  (outputFormat ∈ TestDistro.ListOutputFormats ->
   TestDistro.FilenameFromType outputFormat
     = ("test.img"%string, "application/x-test"%string, None)) /\
  (outputFormat ∉ TestDistro.ListOutputFormats ->
   TestDistro.FilenameFromType outputFormat
     = (""%string, ""%string,
        Some ("invalid output format: " +:+ outputFormat))).
Proof.
  unfold TestDistro.FilenameFromType, TestDistro.ListOutputFormats.
  destruct (String.eqb_spec outputFormat "test_format") as [->|Hne].
  - split; [done|]. intros Hnot. exfalso. apply Hnot.
    by apply list_elem_of_singleton.
  - split; [|done]. intros Hin. by apply list_elem_of_singleton in Hin.
Qed.

Lemma FilenameFromType_accepts_the_listed_formats_witness :
  TestDistro.FilenameFromType "test_format"
    = ("test.img"%string, "application/x-test"%string, None) /\
  TestDistro.FilenameFromType "qcow2"
    = (""%string, ""%string, Some "invalid output format: qcow2"%string).
Proof.
  split.
  - apply (proj1 (FilenameFromType_accepts_the_listed_formats "test_format")).
    apply list_elem_of_singleton. reflexivity.
  - apply (proj2 (FilenameFromType_accepts_the_listed_formats "qcow2")).
    intros H. apply list_elem_of_singleton in H. discriminate H.
Defined.

(** X20. [Pipeline] returns a pipeline, and no error, exactly for the
    format "test_output" on the architecture "test_arch"; it returns
    neither for a format [ListOutputFormats] lists: on every listed
    format, whatever the architecture, it returns [nil] and an error. *)
Theorem Pipeline_rejects_the_listed_formats
    {P B R C : Type} (zero : P) (b : B) (repos : R) (checksums : C)
    (outputArch outputFormat : string) (size : N) :
  (outputFormat = "test_output"%string /\ outputArch = "test_arch"%string ->
   TestDistro.Pipeline zero b repos checksums outputArch outputFormat size
     = (Some zero, None)) /\
  (~ (outputFormat = "test_output"%string /\ outputArch = "test_arch"%string)
   -> TestDistro.Pipeline zero b repos checksums outputArch outputFormat size
      = (None, Some ("invalid output format or arch: " +:+ outputFormat
                     +:+ " @ " +:+ outputArch))) /\
  (outputFormat ∈ TestDistro.ListOutputFormats ->
   fst (TestDistro.Pipeline zero b repos checksums outputArch outputFormat
          size) = None).
Proof.
  unfold TestDistro.Pipeline, TestDistro.ListOutputFormats.
  destruct (String.eqb_spec outputFormat "test_output") as [->|Hf];
    destruct (String.eqb_spec outputArch "test_arch") as [->|Ha]; simpl.
  - split; [done|]. split; [intros H; exfalso; by apply H|].
    intros Hin. apply list_elem_of_singleton in Hin. discriminate Hin.
  - split; [intros [_ H]; done|]. done.
  - split; [intros [H _]; done|]. done.
  - split; [intros [H _]; done|]. done.
Qed.

Lemma Pipeline_rejects_the_listed_formats_witness :
  TestDistro.Pipeline tt tt tt tt "test_arch" "test_output" 0
    = (Some tt, None) /\
  fst (TestDistro.Pipeline tt tt tt tt "test_arch" "test_format" 0) = None.
Proof.
  split.
  - apply (proj1 (Pipeline_rejects_the_listed_formats tt tt tt tt
                    "test_arch" "test_output" 0)).
    split; reflexivity.
  - apply (proj2 (proj2 (Pipeline_rejects_the_listed_formats tt tt tt tt
                           "test_arch" "test_format" 0))).
    apply list_elem_of_singleton. reflexivity.
Defined.

(** * Jobs are dispatched after their dependencies *)

Lemma keeps_records_refl q q' : db q' = db q -> keeps_records q q'.
Proof. intros Hd id j Hj. exists j. by rewrite Hd. Qed.

Lemma keeps_records_finished q q' d :
  keeps_records q q' -> finished q d = true -> finished q' d = true.
Proof.
  intros Hk. unfold finished, readJob.
  destruct (db q !! d) as [[j|]|] eqn:Hj; try done.
  destruct (Hk d j Hj) as (j' & -> & _ & Hfin). intros H.
  apply negb_true_iff in H. apply negb_true_iff. by apply Hfin.
Qed.

Lemma ready_channels_step q q' :
  ready_channels q -> keeps_records q q' ->
  (forall t id, id ∈ chan t q' -> id ∈ chan t q) ->
  ready_channels q'.
Proof.
  intros Hr Hk Hsub t id Hin.
  destruct (Hr t id (Hsub t id Hin)) as (j & Hj & Hdeps).
  destruct (Hk id j Hj) as (j' & Hj' & Hsame & _). exists j'.
  split; [done|]. rewrite Hsame. intros d Hd.
  by apply (keeps_records_finished q q'), Hdeps.
Qed.

Lemma send_ready t id q b q' :
  send t id q = (b, q') -> ready_channels q ->
  (exists j, db q !! id = Some (Doc j) /\
     forall d, d ∈ Dependencies j -> finished q d = true) ->
  ready_channels q'.
Proof.
  intros Hs Hr Hid t' id' Hin. apply send_inv in Hs as (Hd & _ & _ & Hch).
  assert (Hsame : forall d, finished q' d = finished q d)
    by (intros d; by apply finished_db).
  assert (Hold : forall x, (exists j, db q !! x = Some (Doc j) /\
            forall d, d ∈ Dependencies j -> finished q d = true) ->
          exists j, db q' !! x = Some (Doc j) /\
            forall d, d ∈ Dependencies j -> finished q' d = true).
  { intros x (j & Hj & Hdeps). exists j. rewrite Hd. split; [done|].
    intros d Hdin. rewrite Hsame. by apply Hdeps. }
  rewrite Hch in Hin. apply elem_of_app in Hin as [Hin|Hin].
  { by apply Hold, (Hr t'). }
  destruct b; [|by apply elem_of_nil in Hin].
  case_decide as Heq; [|by apply elem_of_nil in Hin].
  apply list_elem_of_singleton in Hin. subst. by apply Hold.
Qed.

Lemma notify_ready depids q r q' :
  notify depids q = (r, q') ->
  filed_by_id q -> ready_channels q -> ready_channels q'.
Proof.
  revert q. induction depids as [|d rest IH]; intros q; simpl.
  { by intros [= <- <-]. }
  destruct (readJob q d) as [err|dep] eqn:Hr; [by intros [= <- <-]|].
  apply readJob_Some in Hr.
  destruct (countFinishedJobs q (Dependencies dep)) as [err|n] eqn:Hc;
    [by intros [= <- <-]|].
  apply countFinishedJobs_all_finished in Hc.
  case_decide as Hn; [|apply IH].
  destruct (send (Type_ dep) (Id dep) q) as [b q1] eqn:Hs.
  intros HN Hf Hrd.
  assert (Hr1 : ready_channels q1).
  { eapply send_ready; [done..|]. exists dep. rewrite (Hf _ _ Hr).
    split; [done|]. by apply Hc. }
  apply send_inv in Hs as (Hd & _).
  destruct b; [|by injection HN as <- <-].
  eapply IH; [done| |done]. by apply (filed_by_id_db q).
Qed.

Lemma New_loop_ready ids q q' :
  New_loop ids q = Ret q' ->
  filed_by_id q -> ready_channels q -> ready_channels q'.
Proof.
  revert q. induction ids as [|k ids IH]; intros q; simpl.
  { by intros [= <-]. }
  destruct (readJob q k) as [err|j] eqn:Hr; [done|].
  apply readJob_Some in Hr.
  destruct (IsZero (StartedAt j)); [apply IH|].
  destruct (countFinishedJobs q (Dependencies j)) as [err|n] eqn:Hc; [done|].
  apply countFinishedJobs_all_finished in Hc.
  case_decide as Hn.
  - destruct (send (Type_ j) (Id j) q) as [[] q1] eqn:Hs; [|done].
    intros HN Hf Hrd.
    assert (Hr1 : ready_channels q1).
    { eapply send_ready; [done..|]. exists j. rewrite (Hf _ _ Hr).
      split; [done|]. by apply Hc. }
    apply send_inv in Hs as (Hd & _).
    eapply IH; [done| |done]. by apply (filed_by_id_db q).
  - intros HN Hf Hrd. eapply IH; done.
Qed.

Lemma ready_no_channel d dep : ready_channels (FsJobQueue d ∅ dep).
Proof.
  intros t id Hin. unfold chan in Hin. simpl in Hin.
  rewrite lookup_empty in Hin. by apply elem_of_nil in Hin.
Qed.

Lemma keeps_records_insert q q' k j j' :
  db q !! k = Some (Doc j) ->
  db q' = <[k := Doc j']> (db q) ->
  Dependencies j' = Dependencies j ->
  (IsZero (FinishedAt j) = false -> IsZero (FinishedAt j') = false) ->
  keeps_records q q'.
Proof.
  intros Hj Hdb Hdeps Hfin id j0 Hj0. rewrite Hdb, lookup_insert.
  case_decide as Hk; [|by exists j0]. subst id.
  rewrite Hj in Hj0. injection Hj0 as <-. by exists j'.
Qed.

Lemma keeps_records_fresh q q' k j' :
  db q !! k = None -> db q' = <[k := Doc j']> (db q) -> keeps_records q q'.
Proof.
  intros Hk Hdb id j0 Hj0. exists j0. split; [|done].
  rewrite Hdb, lookup_insert_ne; [done|]. congruence.
Qed.

Lemma exec_ready c q :
  filed_by_id q -> ready_channels q ->
  match c with
  | CallEnqueue e _ _ _ => db q !! uuid_New e = None
  | _ => True
  end ->
  ready_channels (snd (exec c q)).
Proof.
  intros Hf Hrd Hfresh.
  destruct c as [e|e jt args deps|e ts acc|e id res]; simpl.
  - unfold New. destruct (list_fails e); [apply ready_no_channel|].
    destruct (New_loop _ _) as [q'|err|] eqn:HN; simpl;
      try apply ready_no_channel.
    apply New_loop_ready in HN; [done|done|apply ready_no_channel].
  - assert (Hq : ready_channels (snd (Enqueue e jt args deps q))).
    { unfold Enqueue. destruct args as [a|]; [|done].
      destruct (countFinishedJobs q _) as [err|n] eqn:Hc; [done|].
      pose proof (countFinishedJobs_from_inr _ _ _ _ Hc) as [_ Hdocs].
      apply countFinishedJobs_all_finished in Hc.
      unfold db_Write. destruct (write_fails e); [done|]. cbn [Id].
      set (j := Job _ _ _ _ _ _ _ _).
      set (q1 := set_db (<[uuid_New e := Doc j]> (db q)) q).
      assert (Hk1 : keeps_records q q1)
        by by apply (keeps_records_fresh q q1 (uuid_New e) j).
      assert (Hr1 : ready_channels q1)
        by by apply (ready_channels_step q).
      case_decide as Hn; [|done].
      destruct (send jt (uuid_New e) q1) as [b q2] eqn:Hs.
      assert (ready_channels q2).
      { eapply send_ready; [done..|]. exists j. split.
        - simpl. by rewrite lookup_insert_eq.
        - intros d Hd. apply (keeps_records_finished q q1); [done|].
          by apply Hc. }
      by destruct b. }
    destruct (Enqueue e jt args deps q) as [[id|err|] q']; done.
  - assert (Hq : ready_channels (snd (Dequeue e ts acc q))).
    { destruct (Dequeue e ts acc q) as [r q'] eqn:HD. simpl.
      apply Dequeue_inv in HD as (_ & Hsub & [Hdb|(key & j & Hj & _ & Hdb)]).
      - apply (ready_channels_step q); [done| |done].
        by apply keeps_records_refl.
      - apply (ready_channels_step q); [done| |done].
        by apply (keeps_records_insert q q' key j
                    (set_StartedAt (time_Now e) j)). }
    destruct (Dequeue e ts acc q) as [[id|err|] q']; done.
  - assert (Hq : ready_channels (snd (FinishJob e id res q))).
    { unfold FinishJob. destruct (readJob q id) as [err|j] eqn:Hr; [done|].
      apply readJob_Some in Hr.
      destruct (IsZero (StartedAt j) || negb (IsZero (FinishedAt j)))
        eqn:Hrun; [done|].
      apply orb_false_iff in Hrun as [_ Hfz].
      apply negb_false_iff in Hfz.
      destruct res as [s|]; [|done].
      unfold db_Write. destruct (write_fails e); [done|].
      set (j' := set_Result s (set_FinishedAt (time_Now e) j)).
      set (q1 := set_db (<[id := Doc j']> (db q)) q).
      assert (Hf1 : filed_by_id q1).
      { apply (filed_by_id_insert q q1 id j'); [done| |done].
        by apply Hf in Hr. }
      assert (Hr1 : ready_channels q1).
      { apply (ready_channels_step q); [done| |done].
        apply (keeps_records_insert q q1 id j j'); [done..|].
        congruence. }
      destruct (notify _ q1) as [rn q2] eqn:Hn.
      apply notify_ready in Hn; [|done..].
      destruct rn as [[]|err|]; done. }
    destruct (FinishJob e id res q) as [[[]|err|] q']; done.
Qed.

Lemma exec_invariants c q :
  filed_by_id q -> typed_channels q -> ready_channels q ->
  match c with
  | CallEnqueue e _ _ _ => db q !! uuid_New e = None
  | _ => True
  end ->
  filed_by_id (snd (exec c q)) /\ typed_channels (snd (exec c q)) /\
  ready_channels (snd (exec c q)).
Proof.
  intros Hf Ht Hrd Hc.
  destruct (exec_well_formed c q Hf Ht Hc) as [Hf1 Ht1].
  split; [done|]. split; [done|]. by apply exec_ready.
Qed.

(** X21. Along any sequence of calls in which [uuid.New] never draws an
    id already in the store, every id a channel buffers belongs to a job
    all of whose dependencies are finished: [Enqueue], [FinishJob] and
    [New] publish a job only once its dependencies are finished, and no
    call makes a finished job unfinished or changes a dependency list. *)
Theorem channels_hold_ready_jobs cs q :
  filed_by_id q -> ready_channels q -> fresh_ids cs q ->
  ready_channels (snd (exec_all cs q)).
Proof.
  revert q. induction cs as [|c cs IH]; intros q Hf Hrd Hfr; simpl; [done|].
  destruct Hfr as [Hc Hfr].
  pose proof (exec_ready c q Hf Hrd Hc) as Hr1.
  assert (Hf1 : filed_by_id (snd (exec c q))).
  { destruct c as [e|e jt args deps|e ts acc|e id res]; simpl.
    - unfold New. destruct (list_fails e); [done|].
      destruct (New_loop _ _) as [q'|err|] eqn:HN; simpl; try done.
      apply New_loop_Ret_inv in HN as [Hd _]. by apply (filed_by_id_db q).
    - pose proof (Enqueue_inv e jt args deps q _ _ (surjective_pairing _))
        as [_ H].
      destruct (Enqueue e jt args deps q) as [[id|err|] q']; by apply H.
    - destruct (Dequeue e ts acc q) as [r q'] eqn:HD.
      assert (filed_by_id q').
      { apply Dequeue_inv in HD as (_ & _ & [Hdb|(key & j & Hj & _ & Hdb)]).
        - by apply (filed_by_id_db q).
        - apply (filed_by_id_insert q q' key
                   (set_StartedAt (time_Now e) j)); [done| |done].
          by apply Hf in Hj. }
      by destruct r.
    - pose proof (FinishJob_inv e id res q _ _ (surjective_pairing _))
        as [_ H].
      destruct (FinishJob e id res q) as [[[]|err|] q']; by apply H. }
  destruct (exec c q) as [r q1]. simpl in *.
  specialize (IH q1 Hf1 Hr1 Hfr).
  by destruct (exec_all cs q1) as [rs q2].
Qed.

Lemma channels_hold_ready_jobs_witness :
  ready_channels (snd (exec_all backlog_script empty_queue)).
Proof.
  apply (channels_hold_ready_jobs backlog_script empty_queue).
  - intros k j. simpl. rewrite lookup_empty. discriminate.
  - apply ready_no_channel.
  - vm_compute. repeat split.
Defined.

(** X22. From a queue whose channels hold ready jobs, [Dequeue] only
    returns a job all of whose dependencies are finished. *)
Theorem Dequeue_returns_a_ready_job e jobTypes accepts q id q' :
  filed_by_id q -> ready_channels q ->
  Dequeue e jobTypes accepts q = (Ret id, q') ->
  exists j, db q !! id = Some (Doc j) /\
    forall d, d ∈ Dependencies j ->
      finished q d = true /\ finished q' d = true.
Proof.
  intros Hf Hrd HD.
  destruct (Dequeue_Ret_inv e jobTypes accepts q id q' Hf HD)
    as (t & j & Hin & Hhd & Hj & Hdb).
  destruct (Hrd t id) as (j0 & Hj0 & Hdeps).
  { rewrite Hhd. apply elem_of_cons. by left. }
  rewrite Hj in Hj0. injection Hj0 as <-.
  exists j. split; [done|]. intros d Hd. split; [by apply Hdeps|].
  apply (keeps_records_finished q q'); [|by apply Hdeps].
  by apply (keeps_records_insert q q' id j (set_StartedAt (time_Now e) j)).
Qed.

Lemma Dequeue_returns_a_ready_job_witness :
  let q1 := snd (exec (CallEnqueue (calm (uuid_of 1) 10) "build"
                         (Some "{}"%string) []) empty_queue) in
  let q2 := snd (exec (CallDequeue (calm [] 11) ["build"%string]
                         any_payload) q1) in
  let q3 := snd (exec (CallEnqueue (calm (uuid_of 2) 12) "ship"
                         (Some "{}"%string) [uuid_of 1]) q2) in
  let q := snd (exec (CallFinishJob (calm [] 13) (uuid_of 1)
                        (Some "ok"%string)) q3) in
  exists j, db q !! uuid_of 2 = Some (Doc j) /\
    forall d, d ∈ Dependencies j -> finished q d = true.
Proof.
  intros q1 q2 q3 q.
  assert (H0 : filed_by_id empty_queue /\ typed_channels empty_queue /\
               ready_channels empty_queue).
  { split; [|split; [apply typed_no_channel|apply ready_no_channel]].
    intros k j. simpl. rewrite lookup_empty. discriminate. }
  assert (H1 : filed_by_id q1 /\ typed_channels q1 /\ ready_channels q1).
  { apply exec_invariants; [apply H0..|]. reflexivity. }
  assert (H2 : filed_by_id q2 /\ typed_channels q2 /\ ready_channels q2).
  { apply exec_invariants; [apply H1..|]. exact I. }
  assert (H3 : filed_by_id q3 /\ typed_channels q3 /\ ready_channels q3).
  { apply exec_invariants; [apply H2..|]. vm_compute. reflexivity. }
  assert (H4 : filed_by_id q /\ typed_channels q /\ ready_channels q).
  { apply exec_invariants; [apply H3..|]. exact I. }
  destruct H4 as (Hf & _ & Hrd).
  destruct (Dequeue_returns_a_ready_job (calm [] 14) ["ship"%string]
              any_payload q (uuid_of 2)
              (snd (Dequeue (calm [] 14) ["ship"%string] any_payload q))
              Hf Hrd) as (j & Hj & Hdeps).
  { vm_compute. reflexivity. }
  exists j. split; [exact Hj|]. intros d Hd. apply (Hdeps d Hd).
Defined.
